(** * The cloudchamber [list] command of wrangler

    A shallow embedding of [packages/wrangler/src/cloudchamber/list.ts]:
    the non-interactive JSON output, the rendering of placement events,
    the refresh callback of the placement prompt and the propagation of
    failures out of the command handler. *)

From Stdlib Require Import ZArith NArith Ascii String List Lia Bool.
From stdpp Require Import base list strings gmap.

(* String concatenation computes under [simpl]. *)
#[local] Arguments String.append !s1 s2 : simpl nomatch.

(** ** JSON values and [JSON.stringify]

    The objects handed out by the service client are parsed JSON.  A JSON
    object keeps its properties in enumeration order, so it is an association
    list.  Strings are sequences of bytes (UTF-8), which [JSON.stringify]
    copies unchanged apart from the escapes below. *)

(** A JavaScript number as Number::toString (ECMA-262, 6.1.6.1.20) reads it:
    not a number, an infinity, a zero, or a finite number given by its sign
    and the decimal [significand * 10 ^ exponent] that prints it.  An integer
    is the decimal with exponent zero. *)
Inductive Number : Type :=
| NaN
| Infinite (negative : bool)
| Zero
| Decimal (negative : bool) (significand : positive) (exponent : Z).

Definition NumberOfZ (z : Z) : Number :=
  match z with
  | Z0 => Zero
  | Zpos p => Decimal false p 0
  | Zneg p => Decimal true p 0
  end.

Coercion NumberOfZ : Z >-> Number.
Bind Scope Z_scope with Number.

Definition isFinite (n : Number) : bool :=
  match n with
  | NaN | Infinite _ => false
  | _ => true
  end.

#[local] Unset Elimination Schemes.
Inductive json : Type :=
| JNull
| JBool (b : bool)
| JNum (n : Number)
| JStr (s : string)
| JArr (items : list json)
| JObj (props : list (string * json)).
#[local] Set Elimination Schemes.

Module Char.
Definition of_nat (n : nat) : ascii := ascii_of_nat n.
Definition code (c : ascii) : nat := nat_of_ascii c.
Definition dquote : ascii := of_nat 34.
Definition backslash : ascii := of_nat 92.
Definition lf : ascii := of_nat 10.
End Char.

Definition str1 (c : ascii) : string := String c EmptyString.

(** Lower-case hexadecimal digit of a value below 16. *)
Definition hexDigit (n : nat) : ascii :=
  if n <? 10 then Char.of_nat (48 + n) else Char.of_nat (87 + n).

(** One code unit of QuoteJSONString (ECMA-262, 25.5.2.3). *)
Definition quoteChar (c : ascii) : string :=
  let n := Char.code c in
  if n =? 8 then "\b"
  else if n =? 9 then "\t"
  else if n =? 10 then "\n"
  else if n =? 12 then "\f"
  else if n =? 13 then "\r"
  else if n =? 34 then String Char.backslash (str1 Char.dquote)
  else if n =? 92 then String Char.backslash (str1 Char.backslash)
  else if n <? 32 then "\u00" +:+ String (hexDigit (n / 16)) (str1 (hexDigit (n mod 16)))
  else str1 c.

Fixpoint quoteChars (s : string) : string :=
  match s with
  | EmptyString => ""
  | String c rest => quoteChar c +:+ quoteChars rest
  end.

Definition QuoteJSONString (s : string) : string :=
  str1 Char.dquote +:+ quoteChars s +:+ str1 Char.dquote.

(** Decimal digits of a positive number, most significant first.  [fuel]
    bounds the number of digits; [decimal] supplies the binary size, which is
    never less. *)
Fixpoint decimalDigits (fuel : nat) (n : N) (acc : string) : string :=
  match fuel with
  | O => acc
  | S fuel' =>
      let acc' := String (ascii_of_N (48 + n mod 10)) acc in
      if (n / 10 =? 0)%N then acc' else decimalDigits fuel' (n / 10) acc'
  end.

Definition decimal (p : positive) : string :=
  decimalDigits (Pos.size_nat p) (Npos p) "".

Fixpoint zeros (n : nat) : string :=
  match n with
  | O => ""
  | S n' => String "0" (zeros n')
  end.

(** A digit string without its trailing zeros. *)
Fixpoint trimZeros (d : string) : string :=
  match d with
  | EmptyString => ""
  | String c rest =>
      match trimZeros rest with
      | EmptyString => if Ascii.eqb c "0" then "" else str1 c
      | kept => String c kept
      end
  end.

Fixpoint takeChars (n : nat) (s : string) : string :=
  match n, s with
  | S n', String c rest => String c (takeChars n' rest)
  | _, _ => ""
  end.

Fixpoint dropChars (n : nat) (s : string) : string :=
  match n, s with
  | S n', String c rest => dropChars n' rest
  | _, _ => s
  end.

(** Number::toString in radix 10 for the positive finite number
    [s * 10 ^ e]: [digits] are the [k] digits of the significand without
    trailing zeros, and the number is [0.digits * 10 ^ n]. *)
Definition positiveToString (s : positive) (e : Z) : string :=
  let all := decimal s in
  let digits := trimZeros all in
  let k := Z.of_nat (String.length digits) in
  let n := (Z.of_nat (String.length all) + e)%Z in
  if ((-5 <=? n) && (n <=? 21))%Z then
    if (k <=? n)%Z then
      digits +:+ zeros (Z.to_nat (n - k))
    else if (0 <? n)%Z then
      takeChars (Z.to_nat n) digits +:+ "." +:+ dropChars (Z.to_nat n) digits
    else
      "0." +:+ zeros (Z.to_nat (- n)) +:+ digits
  else
    let e' := (n - 1)%Z in
    let sign := if (e' <? 0)%Z then "-" else "+" in
    let mantissa :=
      if (k =? 1)%Z then digits
      else takeChars 1 digits +:+ "." +:+ dropChars 1 digits in
    mantissa +:+ "e" +:+ sign +:+ decimal (Z.to_pos (Z.abs e')).

(** Number::toString, as template literals and [JSON.stringify] apply it. *)
Definition NumberToString (n : Number) : string :=
  match n with
  | NaN => "NaN"
  | Infinite false => "Infinity"
  | Infinite true => "-Infinity"
  | Zero => "0"
  | Decimal false s e => positiveToString s e
  | Decimal true s e => "-" +:+ positiveToString s e
  end.

(** SerializeJSONProperty with SerializeJSONArray and SerializeJSONObject
    (ECMA-262, 25.5.2.2, .5 and .6): [gap] is the indentation unit and
    [indent] the current indentation. *)
Fixpoint SerializeJSONProperty (gap indent : string) (value : json) : string :=
  match value with
  | JNull => "null"
  | JBool true => "true"
  | JBool false => "false"
  | JNum n => if isFinite n then NumberToString n else "null"
  | JStr s => QuoteJSONString s
  | JArr items =>
      let stepback := indent in
      let indent := indent +:+ gap in
      let partial := map (SerializeJSONProperty gap indent) items in
      match partial with
      | [] => "[]"
      | _ =>
          match gap with
          | EmptyString => "[" +:+ String.concat "," partial +:+ "]"
          | _ =>
              let separator := "," +:+ str1 Char.lf +:+ indent in
              "[" +:+ str1 Char.lf +:+ indent +:+ String.concat separator partial
                  +:+ str1 Char.lf +:+ stepback +:+ "]"
          end
      end
  | JObj props =>
      let stepback := indent in
      let indent := indent +:+ gap in
      let colon := match gap with EmptyString => ":" | _ => ": " end in
      let partial :=
        map (fun kv => QuoteJSONString (fst kv) +:+ colon
                         +:+ SerializeJSONProperty gap indent (snd kv)) props in
      match partial with
      | [] => "{}"
      | _ =>
          match gap with
          | EmptyString => "{" +:+ String.concat "," partial +:+ "}"
          | _ =>
              let separator := "," +:+ str1 Char.lf +:+ indent in
              "{" +:+ str1 Char.lf +:+ indent +:+ String.concat separator partial
                  +:+ str1 Char.lf +:+ stepback +:+ "}"
          end
      end
  end.

Fixpoint spaces (n : nat) : string :=
  match n with
  | O => ""
  | S n' => String " " (spaces n')
  end.

(** [JSON.stringify(value, null, space)] for a numeric [space]: the gap is
    [min(10, space)] spaces. *)
Definition JSON_stringify (value : json) (space : nat) : string :=
  SerializeJSONProperty (spaces (Nat.min 10 space)) "" value.

(** ** The JSON grammar (ECMA-404, RFC 8259)

    One predicate per nonterminal of the grammar; a string is a JSON text
    when it is an [element]. *)

Module Grammar.

Definition wsChar (c : ascii) : Prop :=
  Char.code c = 32 \/ Char.code c = 10 \/ Char.code c = 13 \/ Char.code c = 9.

Inductive ws : string -> Prop :=
| ws_empty : ws ""
| ws_more c s : wsChar c -> ws s -> ws (String c s).

Definition digit (c : ascii) : Prop := 48 <= Char.code c <= 57.
Definition onenine (c : ascii) : Prop := 49 <= Char.code c <= 57.

Definition hex (c : ascii) : Prop :=
  digit c \/ 65 <= Char.code c <= 70 \/ 97 <= Char.code c <= 102.

Inductive digits : string -> Prop :=
| digits_one d : digit d -> digits (str1 d)
| digits_more d s : digit d -> digits s -> digits (String d s).

Inductive natural : string -> Prop :=
| natural_digit d : digit d -> natural (str1 d)
| natural_digits d s : onenine d -> digits s -> natural (String d s).

Inductive integer : string -> Prop :=
| integer_plain s : natural s -> integer s
| integer_minus s : natural s -> integer ("-" +:+ s).

Inductive fraction : string -> Prop :=
| fraction_none : fraction ""
| fraction_some s : digits s -> fraction ("." +:+ s).

Inductive sign : string -> Prop :=
| sign_none : sign ""
| sign_plus : sign "+"
| sign_minus : sign "-".

Inductive exponent : string -> Prop :=
| exponent_none : exponent ""
| exponent_E sg s : sign sg -> digits s -> exponent ("E" +:+ sg +:+ s)
| exponent_e sg s : sign sg -> digits s -> exponent ("e" +:+ sg +:+ s).

Inductive number : string -> Prop :=
| number_parts i f e :
    integer i -> fraction f -> exponent e -> number (i +:+ f +:+ e).

(** The one-letter escapes: quote, backslash, slash, b, f, n, r, t. *)
Definition escape (c : ascii) : Prop :=
  In (Char.code c) [34; 92; 47; 98; 102; 110; 114; 116].

Inductive characters : string -> Prop :=
| characters_empty : characters ""
| characters_plain c s :
    32 <= Char.code c -> c <> Char.dquote -> c <> Char.backslash ->
    characters s -> characters (String c s)
| characters_escape c s :
    escape c -> characters s ->
    characters (String Char.backslash (String c s))
| characters_unicode h1 h2 h3 h4 s :
    hex h1 -> hex h2 -> hex h3 -> hex h4 -> characters s ->
    characters
      (String Char.backslash ("u" +:+ String h1 (String h2 (String h3 (String h4 s))))).

Inductive jstring : string -> Prop :=
| jstring_quoted s :
    characters s -> jstring (str1 Char.dquote +:+ s +:+ str1 Char.dquote).

Inductive value : string -> Prop :=
| value_null : value "null"
| value_true : value "true"
| value_false : value "false"
| value_number s : number s -> value s
| value_string s : jstring s -> value s
| value_array_empty w : ws w -> value ("[" +:+ w +:+ "]")
| value_array s : elements s -> value ("[" +:+ s +:+ "]")
| value_object_empty w : ws w -> value ("{" +:+ w +:+ "}")
| value_object s : members s -> value ("{" +:+ s +:+ "}")
with element : string -> Prop :=
| element_ws w1 v w2 : ws w1 -> value v -> ws w2 -> element (w1 +:+ v +:+ w2)
with elements : string -> Prop :=
| elements_one e : element e -> elements e
| elements_more e s : element e -> elements s -> elements (e +:+ "," +:+ s)
with member : string -> Prop :=
| member_pair w1 k w2 e :
    ws w1 -> jstring k -> ws w2 -> element e ->
    member (w1 +:+ k +:+ w2 +:+ ":" +:+ e)
with members : string -> Prop :=
| members_one m : member m -> members m
| members_more m s : member m -> members s -> members (m +:+ "," +:+ s).

(** A JSON text. *)
Definition json_text (s : string) : Prop := element s.

End Grammar.

(** ** Terminal text

    Modelled from the spec: the colour helpers of [@cloudflare/cli/colors]
    ("Color/theme formatting utilities") are external to this file.  A string
    for the terminal is kept as marked-up text: plain characters, and spans
    recording which colour helper was applied to which text.  String
    concatenation is list concatenation. *)

Inductive Colour : Type :=
| BgRed | Dim | Yellow | Green | BrandColor | Gray | White | BgCyan.

#[local] Unset Elimination Schemes.
Inductive Piece : Type :=
| Chr (c : ascii)
| Styled (colour : Colour) (body : list Piece).
#[local] Set Elimination Schemes.

Definition Text : Type := list Piece.

Definition plain (s : string) : Text := map Chr (list_ascii_of_string s).

Definition bgRed (t : Text) : Text := [Styled BgRed t].
Definition dim (t : Text) : Text := [Styled Dim t].
Definition yellow (t : Text) : Text := [Styled Yellow t].
Definition green (t : Text) : Text := [Styled Green t].
Definition brandColor (t : Text) : Text := [Styled BrandColor t].
Definition gray (t : Text) : Text := [Styled Gray t].
Definition white (t : Text) : Text := [Styled White t].
Definition bgCyan (t : Text) : Text := [Styled BgCyan t].

(** The string a terminal text stands for, once the colour helpers are
    given as functions on strings. *)
Fixpoint renderPiece (paint : Colour -> string -> string) (p : Piece) : string :=
  match p with
  | Chr c => str1 c
  | Styled colour body =>
      paint colour (fold_right (fun q acc => renderPiece paint q +:+ acc) "" body)
  end.

Definition render (paint : Colour -> string -> string) (t : Text) : string :=
  fold_right (fun q acc => renderPiece paint q +:+ acc) "" t.

(** ** Records of the service client

    The type declarations of [./client] are external.  A record holds the
    properties this file reads, with the types the client declares for them,
    and the object as it was received ([props], [raw]), which is what gets
    spread and serialised; for an object of the service, [id] is the value of
    its property "id". *)

Module PlacementEvent.
Record t : Type := {
  name : string;
  message : string;
  time : string;
  statusChange : gmap string json;
}.
End PlacementEvent.

Module PlacementWithEvents.
Record t : Type := {
  id : string;
  created_at : string;
  deployment_version : Number;
  status : gmap string json;
  events : list PlacementEvent.t;
  raw : json;
}.
End PlacementWithEvents.

Module Deployment.
Record t : Type := {
  id : string;
  props : list (string * json);
}.
Definition toJSON (d : t) : json := JObj (props d).
End Deployment.

(** The parsed command line: the four filters and the positional argument. *)
Module ListArgs.
Record t : Type := {
  location : option string;
  image : option string;
  state : option string;
  ipv4 : option string;
  deploymentIdPrefix : option string;
}.
End ListArgs.

Module Config.
Record t : Type := { json : bool }.
End Config.

(** An entry of the placement chooser. *)
Module PromptOption.
Record t : Type := {
  label : string;
  details : list Text;
  value : string;
}.
Definition withLabel (o : t) (l : string) : t :=
  {| label := l; details := details o; value := value o |}.
End PromptOption.

(** [v === s] for a property value that may be absent. *)
Definition strictEqString (v : option json) (s : string) : bool :=
  match v with
  | Some (JStr s') => String.eqb s' s
  | _ => false
  end.

(** ** eventMessage *)

Definition eventMessage (event : PlacementEvent.t) (lastEvent : bool) : Text :=
  let message := plain (PlacementEvent.message event) in
  let name := PlacementEvent.name event in
  let health := PlacementEvent.statusChange event !! "health" in
  let message :=
    if strictEqString health "failed" then
      bgRed (plain " X ") ++ plain " " ++ dim message
    else if lastEvent && String.eqb name "VMStopped" then
      yellow message
    else if (lastEvent && String.eqb name "VMStarted") || String.eqb name "SSHStarted" then
      green message
    else if lastEvent then
      brandColor message
    else
      dim message in
  message ++ plain " (" ++ plain (PlacementEvent.time event) ++ plain ")".

(** [{ ...o, k: v }]: the property keeps its place when [o] has it already
    and comes last otherwise. *)
Fixpoint setProp (k : string) (v : json) (o : list (string * json)) : list (string * json) :=
  match o with
  | [] => [(k, v)]
  | (k', v') :: rest =>
      if String.eqb k' k then (k', v) :: rest else (k', v') :: setProp k v rest
  end.

(** ** The world the command runs in *)

Inductive Failure : Type :=
| NetworkError (msg : string)
| AuthError (msg : string)
| EmptyResultsError (msg : string)
| OtherError (msg : string).

Inductive Result (A : Type) : Type :=
| Ok (a : A)
| Err (e : Failure).
Arguments Ok {A} a.
Arguments Err {A} e.

Definition failureOf {A : Type} (r : Result A) : option Failure :=
  match r with
  | Ok _ => None
  | Err e => Some e
  end.

(** Everything observable the command does, in program order. *)
Inductive Effect : Type :=
| LoadAccountSpinner
| ListDeployments (location image state ipv4 : option string)
| ListPlacements (deploymentId : string) (awaited : bool)
| ConsoleLog (line : string)
| LogRaw (t : Text)
| LoadDeployments (deploymentIdPrefix : string) (args : ListArgs.t)
| ListDeploymentsAndChoose (deployments : list Deployment.t)
| PromiseSpinner (promise : Result (list PlacementWithEvents.t)) (message : string)
| Spinner
| Start (message : string)
| Stop
| InputPrompt (options : list PromptOption.t) (deployment : Deployment.t) (refresh : nat)
| PromptSettled (shown : list PromptOption.t)
| NewDate.

(** The answers of the external collaborators.  The first argument of an
    answer is the moment of the call, counted in effects performed so far, so
    that the service may answer the same request differently over time.
    [refreshKeys] is the number of times the user presses R in the prompt
    opened at that moment, and [inputPrompt] how the prompt then settles, with
    the options it shows at that moment. *)
Record World : Type := {
  isInteractive : bool;
  loadAccountSpinner : nat -> Result unit;
  listDeployments :
    nat -> option string -> option string -> option string -> option string ->
    Result (list Deployment.t);
  listPlacements : nat -> string -> Result (list PlacementWithEvents.t);
  loadDeployments : nat -> string -> ListArgs.t -> Result (list Deployment.t);
  listDeploymentsAndChoose : nat -> list Deployment.t -> Result Deployment.t;
  promiseSpinner :
    nat -> Result (list PlacementWithEvents.t) -> string ->
    Result (list PlacementWithEvents.t);
  refreshKeys : nat -> nat;
  inputPrompt : nat -> list PromptOption.t -> Result unit;
  toLocaleString : nat -> string;
}.

(** The failure, if any, with which the world settles an awaited call made
    at moment [t]. *)
Definition awaitedFailure (w : World) (t : nat) (eff : Effect) : option Failure :=
  match eff with
  | LoadAccountSpinner => failureOf (loadAccountSpinner w t)
  | ListDeployments l i s a => failureOf (listDeployments w t l i s a)
  | ListPlacements d true => failureOf (listPlacements w t d)
  | LoadDeployments p a => failureOf (loadDeployments w t p a)
  | ListDeploymentsAndChoose ds => failureOf (listDeploymentsAndChoose w t ds)
  | PromiseSpinner p m => failureOf (promiseSpinner w t p m)
  | PromptSettled os => failureOf (inputPrompt w t os)
  | _ => None
  end.

(** The mutable state: the effects so far, and the store of the [refresh]
    variables, one cell per iteration of the loop, shared between the loop
    body and the [onRefresh] closure created in it. *)
Record State : Type := {
  trace : list Effect;
  cells : list bool;
}.

Definition initial : State := {| trace := []; cells := [] |}.

Definition now (s : State) : nat := length (trace s).

Definition record (eff : Effect) (s : State) : State :=
  {| trace := trace s ++ [eff]; cells := cells s |}.

(** How a run ends: with a value, with a thrown failure, or still running
    when the fuel of the loop is used up. *)
Inductive Outcome (A : Type) : Type :=
| Done (a : A)
| Thrown (e : Failure)
| Running.
Arguments Done {A} a.
Arguments Thrown {A} e.
Arguments Running {A}.

Definition M (A : Type) : Type := World -> State -> Outcome A * State.

Definition ret {A : Type} (a : A) : M A := fun _ s => (Done a, s).

Definition bind {A B : Type} (m : M A) (k : A -> M B) : M B :=
  fun w s =>
    match m w s with
    | (Done a, s') => k a w s'
    | (Thrown e, s') => (Thrown e, s')
    | (Running, s') => (Running, s')
    end.

Notation "'do' x <- m ; k" := (bind m (fun x => k))
  (at level 10, x name, m at level 100, k at level 200).
Notation "'run' m ; k" := (bind m (fun _ => k))
  (at level 10, m at level 100, k at level 200).

(** A synchronous effect. *)
Definition emit (eff : Effect) : M unit :=
  fun _ s => (Done tt, record eff s).

(** [await f(...)]: the call is made, and its failure is thrown here. *)
Definition await {A : Type} (eff : Effect) (answer : World -> nat -> Result A) : M A :=
  fun w s =>
    match answer w (now s) with
    | Ok a => (Done a, record eff s)
    | Err e => (Thrown e, record eff s)
    end.

(** [f(...)] without [await]: the call is made and the promise is a value. *)
Definition request {A : Type} (eff : Effect) (answer : World -> nat -> Result A)
  : M (Result A) :=
  fun w s => (Done (answer w (now s)), record eff s).

Definition running {A : Type} : M A := fun _ s => (Running, s).

Definition ask {A : Type} (f : World -> A) : M A := fun w s => (Done (f w), s).

Definition askNow {A : Type} (f : World -> nat -> A) : M A :=
  fun w s => (Done (f w (now s)), s).

(** [new Date().toLocaleString()] *)
Definition newDate : M string :=
  fun w s => (Done (toLocaleString w (now s)), record NewDate s).

(** [let refresh = v]: a fresh cell. *)
Definition alloc (v : bool) : M nat :=
  fun _ s => (Done (length (cells s)), {| trace := trace s; cells := cells s ++ [v] |}).

(** A cell is allocated before any closure that reads it exists. *)
Definition readCell (c : nat) : M bool :=
  fun _ s => (Done (default false (cells s !! c)), s).

Definition writeCell (c : nat) (v : bool) : M unit :=
  fun _ s => (Done tt, {| trace := trace s; cells := <[c := v]> (cells s) |}).

Definition consoleLog (line : string) : M unit := emit (ConsoleLog line).

(** ** The command *)

Section ListCommand.

(** Helpers of [@cloudflare/cli], [./cli/util] and [./common], which are
    external to this file. *)
Variable statusToColored : option json -> Text.
Variable space : nat -> Text.
Variable shapes_bar : string.
Variable handleFailure :
  (ListArgs.t -> Config.t -> M unit) -> ListArgs.t -> M unit.

Definition placementToOptions (p : PlacementWithEvents.t) : PromptOption.t :=
  let events := PlacementWithEvents.events p in
  {| PromptOption.label :=
       "Placement " +:+ substring 0 6 (PlacementWithEvents.id p)
         +:+ " (" +:+ PlacementWithEvents.created_at p +:+ ")";
     PromptOption.details :=
       [ plain "ID: " ++ dim (plain (PlacementWithEvents.id p));
         plain "Version: "
           ++ dim (plain (NumberToString (PlacementWithEvents.deployment_version p)));
         plain "Status: " ++ statusToColored (PlacementWithEvents.status p !! "health");
         bgCyan (white (plain "Events")) ]
       ++ imap (fun i event =>
                  space 1
                    ++ eventMessage event
                         (Z.of_nat i =? Z.of_nat (length events) - 1)%Z)
            events;
     PromptOption.value := PlacementWithEvents.id p |}.

(** [const loadPlacements = () => PlacementsService.listPlacements(deployment.id)] *)
Definition loadPlacements (deployment : Deployment.t) (awaited : bool) : Effect :=
  ListPlacements (Deployment.id deployment) awaited.

Definition loadPlacementsAnswer (deployment : Deployment.t)
  : World -> nat -> Result (list PlacementWithEvents.t) :=
  fun w t => listPlacements w t (Deployment.id deployment).

(** The [onRefresh] callback handed to the prompt: a closure over the
    chosen deployment and over the variable [refresh] of its iteration. *)
Definition onRefresh (deployment : Deployment.t) (refresh : nat)
  : M (list PromptOption.t) :=
  run emit (Start "Refreshing placements");
  do placements <- await (loadPlacements deployment true)
                         (loadPlacementsAnswer deployment);
  let options := map placementToOptions placements in
  do stale <- readCell refresh;
  if stale then ret []
  else
    run emit Stop;
    match options with
    | [] => ret options
    | first :: rest =>
        do date <- newDate;
        ret (PromptOption.withLabel first
               (PromptOption.label first +:+ ", last refresh: " +:+ date)
             :: rest)
    end.

(** Modelled from the spec: [inputPrompt] of [@cloudflare/cli/interactive]
    is missing.  The prompt "supports an in-place refresh action (keystroke
    R) that re-fetches placements and replaces the option list", and "all
    failures are delegated to a generic top-level failure handler": for
    each R the prompt runs the [onRefresh] callback it was given and shows
    the options returned instead of the ones before; a failure of the
    callback is the failure of the prompt; after the last R the prompt
    settles as the world decides. *)
Fixpoint promptRefreshes (presses : nat) (shown : list PromptOption.t)
    (callback : M (list PromptOption.t)) : M (list PromptOption.t) :=
  match presses with
  | O => ret shown
  | S presses' =>
      do refreshed <- callback;
      promptRefreshes presses' refreshed callback
  end.

Definition runInputPrompt (options : list PromptOption.t)
    (deployment : Deployment.t) (refresh : nat) : M unit :=
  run emit (InputPrompt options deployment refresh);
  do presses <- askNow refreshKeys;
  do shown <- promptRefreshes presses options (onRefresh deployment refresh);
  await (PromptSettled shown) (fun w t => inputPrompt w t shown).

(** One turn of the [while] loop of [listCommandHandle]. *)
Definition listIteration (deploymentIdPrefix : string) (args : ListArgs.t) : M unit :=
  run emit (LogRaw (gray (plain shapes_bar)));
  do deployments <- await (LoadDeployments deploymentIdPrefix args)
                          (fun w t => loadDeployments w t deploymentIdPrefix args);
  do deployment <- await (ListDeploymentsAndChoose deployments)
                         (fun w t => listDeploymentsAndChoose w t deployments);
  do promise <- request (loadPlacements deployment false)
                        (loadPlacementsAnswer deployment);
  do placements <- await (PromiseSpinner promise "Loading placements")
                         (fun w t => promiseSpinner w t promise "Loading placements");
  run emit Spinner;
  do refresh <- alloc false;
  let options := map placementToOptions placements in
  run runInputPrompt options deployment refresh;
  run writeCell refresh true;
  emit Stop.

(** [while (keepListIter)] with [keepListIter] constantly true: the loop
    ends only by a thrown failure.  [fuel] bounds the turns observed. *)
Fixpoint listCommandHandle (fuel : nat) (deploymentIdPrefix : string)
    (args : ListArgs.t) : M unit :=
  match fuel with
  | O => running
  | S fuel' =>
      run listIteration deploymentIdPrefix args;
      listCommandHandle fuel' deploymentIdPrefix args
  end.

(** [.filter((deployment) => deployment.id.startsWith(prefix))] *)
Definition filterByPrefix (prefix : string) (deployments : list Deployment.t)
  : list Deployment.t :=
  List.filter (fun deployment => String.prefix prefix (Deployment.id deployment))
    deployments.

(** The branch taken when [config.json || !isInteractive()]. *)
Definition jsonOutput (prefix : string) (deploymentArgs : ListArgs.t) : M unit :=
  let location := ListArgs.location deploymentArgs in
  let image := ListArgs.image deploymentArgs in
  let state := ListArgs.state deploymentArgs in
  let ipv4 := ListArgs.ipv4 deploymentArgs in
  do listed <- await (ListDeployments location image state ipv4)
                     (fun w t => listDeployments w t location image state ipv4);
  let deployments := filterByPrefix prefix listed in
  match deployments with
  | [only] =>
      (* deployments.length === 1, and [only] is deployments[0] *)
      do placements <- await (ListPlacements (Deployment.id only) true)
                             (fun w t => listPlacements w t (Deployment.id only));
      consoleLog
        (JSON_stringify
           (JObj (setProp "placements"
                    (JArr (map PlacementWithEvents.raw placements))
                    (Deployment.props only)))
           4)
  | _ =>
      consoleLog (JSON_stringify (JArr (map Deployment.toJSON deployments)) 4)
  end.

(** The callback given to [handleFailure]. *)
Definition handler (fuel : nat) (deploymentArgs : ListArgs.t) (config : Config.t)
  : M unit :=
  run await LoadAccountSpinner loadAccountSpinner;
  let prefix := default "" (ListArgs.deploymentIdPrefix deploymentArgs) in
  do interactive <- ask isInteractive;
  if Config.json config || negb interactive then
    jsonOutput prefix deploymentArgs
  else
    listCommandHandle fuel prefix deploymentArgs.

Definition listCommand (fuel : nat) (args : ListArgs.t) : M unit :=
  handleFailure (handler fuel) args.

End ListCommand.

(** ** Vocabulary of the statements *)

(** The event's health, read as [eventMessage] reads it. *)
Definition healthFailed (event : PlacementEvent.t) : Prop :=
  PlacementEvent.statusChange event !! "health" = Some (JStr "failed").

(** A rendered message followed by the event's time in parentheses. *)
Definition timed (event : PlacementEvent.t) (message : Text) : Text :=
  message ++ plain " (" ++ plain (PlacementEvent.time event) ++ plain ")".

(** The event's message in one colour. *)
Definition highlighted (colour : Colour) (event : PlacementEvent.t) : Text :=
  timed event [Styled colour (plain (PlacementEvent.message event))].

(** The failure marker: " X " on a red background, then the dimmed message. *)
Definition failureMarked (event : PlacementEvent.t) : Text :=
  timed event
    (Styled BgRed (plain " X ") :: plain " "
       ++ [Styled Dim (plain (PlacementEvent.message event))]).

(** [o[k]] for an object kept in enumeration order. *)
Fixpoint getProp (k : string) (o : list (string * json)) : option json :=
  match o with
  | [] => None
  | (k', v) :: rest => if String.eqb k' k then Some v else getProp k rest
  end.

(** The calls the non-interactive branch makes. *)
Definition isServiceCall (eff : Effect) : Prop :=
  match eff with
  | LoadAccountSpinner | ListDeployments _ _ _ _ | ListPlacements _ true => True
  | _ => False
  end.

(** No awaited call recorded in [effects], the first of which was made at
    moment [t], has failed. *)
Definition allSettled (w : World) (t : nat) (effects : list Effect) : Prop :=
  forall i eff, effects !! i = Some eff -> awaitedFailure w (t + i) eff = None.

(** ** Sample data *)

Module Sample.

Definition vmStarted : PlacementEvent.t :=
  {| PlacementEvent.name := "VMStarted";
     PlacementEvent.message := "VM started";
     PlacementEvent.time := "2024-03-01T10:00:00Z";
     PlacementEvent.statusChange := {[ "health" := JStr "running" ]} |}.

Definition vmStopped : PlacementEvent.t :=
  {| PlacementEvent.name := "VMStopped";
     PlacementEvent.message := "VM stopped";
     PlacementEvent.time := "2024-03-01T11:00:00Z";
     PlacementEvent.statusChange := ∅ |}.

Definition sshStarted : PlacementEvent.t :=
  {| PlacementEvent.name := "SSHStarted";
     PlacementEvent.message := "SSH is up";
     PlacementEvent.time := "2024-03-01T10:01:00Z";
     PlacementEvent.statusChange := {[ "health" := JStr "running" ]} |}.

(** An SSHStarted event that reports failed health. *)
Definition sshFailed : PlacementEvent.t :=
  {| PlacementEvent.name := "SSHStarted";
     PlacementEvent.message := "SSH did not come up";
     PlacementEvent.time := "2024-03-01T10:02:00Z";
     PlacementEvent.statusChange := {[ "health" := JStr "failed" ]} |}.

Definition placement : PlacementWithEvents.t :=
  {| PlacementWithEvents.id := "7b1c9e52-placement";
     PlacementWithEvents.created_at := "2024-03-01T09:59:00Z";
     PlacementWithEvents.deployment_version := 3;
     PlacementWithEvents.status := {[ "health" := JStr "running" ]};
     PlacementWithEvents.events := [vmStarted; sshStarted];
     PlacementWithEvents.raw :=
       JObj [("id", JStr "7b1c9e52-placement"); ("deployment_version", JNum 3)] |}.

Definition older : PlacementWithEvents.t :=
  {| PlacementWithEvents.id := "02aa41f0-placement";
     PlacementWithEvents.created_at := "2024-02-27T08:00:00Z";
     PlacementWithEvents.deployment_version := 2;
     PlacementWithEvents.status := {[ "health" := JStr "stopped" ]};
     PlacementWithEvents.events := [vmStarted; vmStopped];
     PlacementWithEvents.raw :=
       JObj [("id", JStr "02aa41f0-placement"); ("deployment_version", JNum 2)] |}.

Definition web : Deployment.t :=
  {| Deployment.id := "a3f0-web";
     Deployment.props := [("id", JStr "a3f0-web"); ("version", JNum 3)] |}.

Definition worker : Deployment.t :=
  {| Deployment.id := "b771-worker";
     Deployment.props := [("id", JStr "b771-worker"); ("version", JNum 1)] |}.

Definition args (prefix : option string) : ListArgs.t :=
  {| ListArgs.location := None;
     ListArgs.image := None;
     ListArgs.state := None;
     ListArgs.ipv4 := None;
     ListArgs.deploymentIdPrefix := prefix |}.

Definition jsonConfig : Config.t := {| Config.json := true |}.

Definition statusToColored (health : option json) : Text :=
  match health with
  | Some (JStr s) => green (plain s)
  | _ => plain "unknown"
  end.

Definition space (n : nat) : Text := plain (spaces n).

(** A service with two deployments and two placements; the prompt is left
    at once. *)
Definition world : World :=
  {| isInteractive := true;
     loadAccountSpinner := fun _ => Ok tt;
     listDeployments := fun _ _ _ _ _ => Ok [web; worker];
     listPlacements := fun _ _ => Ok [placement; older];
     loadDeployments := fun _ _ _ => Ok [web; worker];
     listDeploymentsAndChoose := fun _ _ => Ok web;
     promiseSpinner := fun _ promise _ => promise;
     refreshKeys := fun _ => 0;
     inputPrompt := fun _ _ => Ok tt;
     toLocaleString := fun t => "3/1/2024, 10:05:0" +:+ NumberToString (Z.of_nat t) |}.

(** An account without deployments. *)
Definition emptyWorld : World :=
  {| isInteractive := false;
     loadAccountSpinner := fun _ => Ok tt;
     listDeployments := fun _ _ _ _ _ => Ok [];
     listPlacements := fun _ _ => Ok [];
     loadDeployments := fun _ _ _ => Ok [];
     listDeploymentsAndChoose := fun _ _ => Err (OtherError "nothing to choose");
     promiseSpinner := fun _ promise _ => promise;
     refreshKeys := fun _ => 0;
     inputPrompt := fun _ _ => Ok tt;
     toLocaleString := fun _ => "3/1/2024, 10:05:00" |}.

(** The state inside the first prompt: its [refresh] variable is false. *)
Definition promptOpen : State := {| trace := []; cells := [false] |}.

(** The state once the first prompt has been left: one turn of the loop. *)
Definition afterPrompt : State :=
  snd (listCommandHandle statusToColored space "|" 1 "" (args None) world initial).

End Sample.

(** How a run ends, against the answers of the world to the [effects] it
    performed from moment [t] on: it throws [e] exactly when its last effect
    is an awaited call that the world settles with the failure [e], every
    awaited call before having succeeded; otherwise every awaited call has
    succeeded. *)
Definition propagates {A : Type} (w : World) (t : nat) (effects : list Effect)
    (o : Outcome A) : Prop :=
  match o with
  | Thrown e =>
      exists pre eff,
        effects = pre ++ [eff]
        /\ allSettled w t pre
        /\ awaitedFailure w (t + length pre) eff = Some e
  | _ => allSettled w t effects
  end.

(** A computation that only adds effects to the trace and lets the failures
    of its awaited calls through. *)
Definition sound {A : Type} (m : M A) : Prop :=
  forall w s,
    exists effects,
      trace (snd (m w s)) = trace s ++ effects
      /\ propagates w (now s) effects (fst (m w s)).

(** ** Vocabulary of the further statements *)

(** A string of decimal digits, possibly empty. *)
Fixpoint allDigits (s : string) : Prop :=
  match s with
  | EmptyString => True
  | String c rest => Grammar.digit c /\ allDigits rest
  end.

(** The effects an interactive session may perform once the account is
    loaded: every effect but printing with [console.log], listing the
    deployments through the service directly and loading the account. *)
Definition isInteractiveEffect (eff : Effect) : Prop :=
  match eff with
  | ConsoleLog _ | ListDeployments _ _ _ _ | LoadAccountSpinner => False
  | _ => True
  end.

(** A string of ASCII characters: its bytes are its UTF-16 code units. *)
Fixpoint isAscii (s : string) : Prop :=
  match s with
  | EmptyString => True
  | String c rest => Char.code c < 128 /\ isAscii rest
  end.

(** A computation all of whose effects satisfy [P]. *)
Definition emitsOnly {A : Type} (P : Effect -> Prop) (m : M A) : Prop :=
  forall w s,
    exists effects,
      trace (snd (m w s)) = trace s ++ effects /\ Forall P effects.

(** The colour helpers when colours are switched off. *)
Definition colourless (colour : Colour) (s : string) : string := s.

(** Further sample worlds. *)
Module Cases.

(** Deployments can be listed, placements cannot. *)
Definition offline : World :=
{| isInteractive := false;
   loadAccountSpinner := fun _ => Ok tt;
   listDeployments := fun _ _ _ _ _ => Ok [Sample.web; Sample.worker];
   listPlacements := fun _ _ => Err (NetworkError "fetch failed");
   loadDeployments := fun _ _ _ => Ok [Sample.web; Sample.worker];
   listDeploymentsAndChoose := fun _ _ => Ok Sample.web;
   promiseSpinner := fun _ promise _ => promise;
   refreshKeys := fun _ => 0;
   inputPrompt := fun _ _ => Ok tt;
   toLocaleString := fun _ => "3/1/2024, 10:05:00" |}.

(** An interactive session in which the user presses R once in each
  prompt before leaving it. *)
Definition refreshOnce : World :=
{| isInteractive := true;
   loadAccountSpinner := fun _ => Ok tt;
   listDeployments := fun _ _ _ _ _ => Ok [Sample.web; Sample.worker];
   listPlacements := fun _ _ => Ok [Sample.placement; Sample.older];
   loadDeployments := fun _ _ _ => Ok [Sample.web; Sample.worker];
   listDeploymentsAndChoose := fun _ _ => Ok Sample.web;
   promiseSpinner := fun _ promise _ => promise;
   refreshKeys := fun _ => 1;
   inputPrompt := fun _ _ => Ok tt;
   toLocaleString := fun _ => "3/1/2024, 10:05:00" |}.


(** The state once the first prompt of the session [refreshOnce] has been
  left. *)
Definition afterRefreshedPrompt : State :=
snd (listCommandHandle Sample.statusToColored Sample.space "|" 1 ""
       (Sample.args None) refreshOnce initial).

(** An event of another kind, in good health. *)
Definition imagePulled : PlacementEvent.t :=
{| PlacementEvent.name := "ImagePulled";
   PlacementEvent.message := "Image pulled";
   PlacementEvent.time := "2024-03-01T09:59:30Z";
   PlacementEvent.statusChange := ∅ |}.

End Cases.

(** * Properties *)

(** ** Strings *)

Lemma append_assoc (a b c : string) : (a +:+ b) +:+ c = a +:+ (b +:+ c).
Proof. induction a as [|x a IH]; simpl; [reflexivity | now rewrite IH]. Qed.

Lemma append_empty_r (a : string) : a +:+ "" = a.
Proof. induction a as [|x a IH]; simpl; [reflexivity | now rewrite IH]. Qed.

(** Both sides of an equation between concatenations, nested to the right. *)
Ltac reassociate := repeat first [rewrite append_assoc | progress simpl].

Lemma code_of_nat (n : nat) : n < 256 -> Char.code (Char.of_nat n) = n.
Proof. intros H. apply nat_ascii_embedding, H. Qed.

Lemma code_inj (c d : ascii) : Char.code c = Char.code d -> c = d.
Proof.
  intros H. rewrite <- (ascii_nat_embedding c), <- (ascii_nat_embedding d).
  unfold Char.code in H. now rewrite H.
Qed.

(** ** [JSON.stringify] produces JSON texts *)

Section JsonInduction.

Variable P : json -> Prop.
Hypothesis Hnull : P JNull.
Hypothesis Hbool : forall b, P (JBool b).
Hypothesis Hnum : forall n, P (JNum n).
Hypothesis Hstr : forall s, P (JStr s).
Hypothesis Harr : forall items, Forall P items -> P (JArr items).
Hypothesis Hobj : forall props, Forall (fun kv => P (snd kv)) props -> P (JObj props).

Lemma json_induction : forall v, P v.
Proof.
  fix IH 1. intros [ | b | n | s | items | props ].
  - exact Hnull.
  - apply Hbool.
  - apply Hnum.
  - apply Hstr.
  - apply Harr. induction items as [|v items IHitems]; constructor.
    + apply IH.
    + exact IHitems.
  - apply Hobj. induction props as [|[k v] props IHprops]; constructor.
    + apply IH.
    + exact IHprops.
Qed.

End JsonInduction.

Module GrammarFacts.
Import Grammar.

Lemma ws_app (a b : string) : ws a -> ws b -> ws (a +:+ b).
Proof. induction 1; simpl; [trivial | constructor; auto]. Qed.

Lemma ws_spaces (n : nat) : ws (spaces n).
Proof.
  induction n as [|n IH]; simpl; constructor; [|exact IH].
  left. reflexivity.
Qed.

Lemma ws_lf (w : string) : ws w -> ws (str1 Char.lf +:+ w).
Proof. intros H. simpl. constructor; [|exact H]. right; left. reflexivity. Qed.

Lemma hex_hexDigit (n : nat) : n < 16 -> hex (hexDigit n).
Proof.
  intros H. unfold hexDigit, hex, digit.
  destruct (Nat.ltb_spec n 10); rewrite code_of_nat by lia.
  - left. lia.
  - right; right. lia.
Qed.

Lemma characters_quoteChar (c : ascii) (s : string) :
  characters s -> characters (quoteChar c +:+ s).
Proof.
  intros Hs. unfold quoteChar.
  repeat match goal with
         | |- context [ (?a =? ?b) ] => destruct (Nat.eqb_spec a b)
         end;
    try (apply (characters_escape _ s); [unfold escape; simpl; tauto | exact Hs]).
  destruct (Nat.ltb_spec (Char.code c) 32).
  - apply (characters_unicode "0" "0" _ _ s); trivial.
    + left. unfold digit. compute. lia.
    + left. unfold digit. compute. lia.
    + apply hex_hexDigit.
      assert (Char.code c / 16 < 2) by (apply Nat.Div0.div_lt_upper_bound; lia). lia.
    + apply hex_hexDigit, Nat.mod_upper_bound. lia.
  - apply characters_plain; trivial; intros ->; compute in *; lia.
Qed.

Lemma characters_quoteChars (s : string) : characters (quoteChars s).
Proof.
  induction s as [|c s IH]; simpl.
  - constructor.
  - apply characters_quoteChar, IH.
Qed.

Lemma jstring_QuoteJSONString (s : string) : jstring (QuoteJSONString s).
Proof. apply jstring_quoted, characters_quoteChars. Qed.

Lemma code_decimal_digit (d : N) :
  (d < 10)%N -> Char.code (ascii_of_N (48 + d)) = 48 + N.to_nat d.
Proof.
  intros H. unfold Char.code, nat_of_ascii.
  rewrite N_ascii_embedding by lia. lia.
Qed.

Lemma digit_decimal (d : N) : (d < 10)%N -> digit (ascii_of_N (48 + d)).
Proof. intros H. unfold digit. rewrite code_decimal_digit by exact H. lia. Qed.

Lemma onenine_decimal (d : N) :
  (0 < d)%N -> (d < 10)%N -> onenine (ascii_of_N (48 + d)).
Proof. intros H0 H. unfold onenine. rewrite code_decimal_digit by exact H. lia. Qed.

Lemma onenine_digit (c : ascii) : onenine c -> digit c.
Proof. unfold onenine, digit. lia. Qed.

Lemma leading_decimalDigits (fuel : nat) :
  forall (n : N) (acc : string),
    (0 < n)%N -> (n < 2 ^ N.of_nat fuel)%N -> allDigits acc ->
    exists d rest,
      decimalDigits fuel n acc = String d rest /\ onenine d /\ allDigits rest.
Proof.
  induction fuel as [|fuel IH]; intros n acc Hpos Hlt Hacc.
  - simpl in Hlt. lia.
  - cbn [decimalDigits].
    assert (Hmod : (n mod 10 < 10)%N) by (apply N.mod_lt; lia).
    destruct (N.eqb_spec (n / 10) 0) as [Hq|Hq].
    + assert (Hn : (0 < n mod 10)%N).
      { rewrite (N.div_mod n 10) in Hpos by lia. rewrite Hq in Hpos. lia. }
      eexists _, _. split; [reflexivity|].
      split; [now apply onenine_decimal | exact Hacc].
    + apply IH.
      * apply N.neq_0_lt_0, Hq.
      * rewrite Nat2N.inj_succ, N.pow_succ_r' in Hlt.
        apply N.Div0.div_lt_upper_bound. lia.
      * split; [apply digit_decimal, Hmod | exact Hacc].
Qed.

Lemma size_nat_bound (p : positive) : (Npos p < 2 ^ N.of_nat (Pos.size_nat p))%N.
Proof.
  induction p as [p IH|p IH|]; cbn [Pos.size_nat];
    rewrite ?Nat2N.inj_succ, ?N.pow_succ_r'.
  - change (N.pos p~1) with (2 * N.pos p + 1)%N. lia.
  - change (N.pos p~0) with (2 * N.pos p)%N. lia.
  - reflexivity.
Qed.

Lemma leading_decimal (p : positive) :
  exists d rest, decimal p = String d rest /\ onenine d /\ allDigits rest.
Proof.
  apply leading_decimalDigits; [lia | apply size_nat_bound | exact I].
Qed.

Lemma digits_allDigits (s : string) : s <> "" -> allDigits s -> digits s.
Proof.
  induction s as [|c s IH]; [congruence|]. intros _ [Hc Hs].
  destruct s as [|c' s].
  - now apply digits_one.
  - apply digits_more; [exact Hc|]. now apply IH.
Qed.

Lemma natural_leading (d : ascii) (rest : string) :
  onenine d -> allDigits rest -> natural (String d rest).
Proof.
  intros Hd Hrest. destruct rest as [|c rest].
  - now apply natural_digit, onenine_digit.
  - apply natural_digits; [exact Hd|]. now apply digits_allDigits.
Qed.

Lemma allDigits_app (a b : string) : allDigits a -> allDigits b -> allDigits (a +:+ b).
Proof. induction a as [|c a IH]; simpl; [trivial | intros [Hc Ha] Hb; auto]. Qed.

Lemma allDigits_zeros (n : nat) : allDigits (zeros n).
Proof.
  induction n as [|n IH]; simpl; [exact I|]. split; [|exact IH].
  unfold digit. compute. lia.
Qed.

Lemma allDigits_trimZeros (s : string) : allDigits s -> allDigits (trimZeros s).
Proof.
  induction s as [|c s IH]; [trivial|]. intros [Hc Hs]. cbn [trimZeros].
  destruct (trimZeros s) as [|c' kept].
  - destruct (Ascii.eqb c "0"); simpl; auto.
  - split; [exact Hc | now apply IH].
Qed.

Lemma trimZeros_leading (d : ascii) (rest : string) :
  onenine d -> allDigits rest ->
  exists kept, trimZeros (String d rest) = String d kept /\ allDigits kept.
Proof.
  intros Hd Hrest. cbn [trimZeros].
  pose proof (allDigits_trimZeros rest Hrest) as Hkept.
  destruct (trimZeros rest) as [|c kept].
  - destruct (Ascii.eqb_spec d "0") as [->|_].
    + unfold onenine in Hd. compute in Hd. lia.
    + now exists "".
  - now exists (String c kept).
Qed.

Lemma allDigits_takeChars (n : nat) (s : string) :
  allDigits s -> allDigits (takeChars n s).
Proof.
  revert s. induction n as [|n IH]; intros [|c s]; simpl; trivial.
  intros [Hc Hs]. auto.
Qed.

Lemma allDigits_dropChars (n : nat) (s : string) :
  allDigits s -> allDigits (dropChars n s).
Proof.
  revert s. induction n as [|n IH]; intros [|c s]; simpl; trivial.
  intros [Hc Hs]. auto.
Qed.

Lemma dropChars_nonempty (n : nat) (s : string) :
  n < String.length s -> dropChars n s <> "".
Proof.
  revert s. induction n as [|n IH]; intros [|c s]; simpl; try lia; try congruence.
  intros H. apply IH. lia.
Qed.

(** The three parts of a JSON number in what Number::toString prints for a
    positive finite number. *)
Lemma positiveToString_parts (s : positive) (e : Z) :
  exists i f x,
    positiveToString s e = i +:+ f +:+ x
    /\ natural i /\ fraction f /\ exponent x.
Proof.
  unfold positiveToString.
  destruct (leading_decimal s) as (d & rest & -> & Hd & Hrest).
  destruct (trimZeros_leading d rest Hd Hrest) as (kept & -> & Hkept).
  set (n := (Z.of_nat (String.length (String d rest)) + e)%Z).
  cbn [String.length].
  destruct ((-5 <=? n)%Z && (n <=? 21)%Z) eqn:Erange.
  - destruct (Z.leb_spec (Z.of_nat (S (String.length kept))) n) as [Hk|Hk].
    + exists (String d kept +:+ zeros (Z.to_nat (n - Z.of_nat (S (String.length kept))))),
        "", "".
      split; [now rewrite !append_empty_r|].
      split; [|split; constructor].
      apply natural_leading; [exact Hd|]. apply allDigits_app; [exact Hkept|].
      apply allDigits_zeros.
    + destruct (Z.ltb_spec 0 n) as [Hn|Hn].
      * destruct (Z.to_nat n) as [|m] eqn:Em; [lia|].
        exists (takeChars (S m) (String d kept)),
          ("." +:+ dropChars (S m) (String d kept)), "".
        split; [now rewrite append_empty_r|]. split; [|split].
        -- cbn [takeChars]. apply natural_leading; [exact Hd|].
           now apply allDigits_takeChars.
        -- apply fraction_some, digits_allDigits.
           ++ apply dropChars_nonempty. cbn [String.length]. lia.
           ++ apply allDigits_dropChars. split; [now apply onenine_digit | exact Hkept].
        -- constructor.
      * exists "0", ("." +:+ zeros (Z.to_nat (- n)) +:+ String d kept), "".
        split; [now rewrite append_empty_r|]. split; [|split].
        -- apply natural_digit. unfold digit. compute. lia.
        -- apply fraction_some, digits_allDigits.
           ++ destruct (zeros (Z.to_nat (- n))); discriminate.
           ++ apply allDigits_app; [apply allDigits_zeros|].
              split; [now apply onenine_digit | exact Hkept].
        -- constructor.
  - set (e' := (n - 1)%Z).
    set (sign := if (e' <? 0)%Z then "-" else "+").
    destruct (leading_decimal (Z.to_pos (Z.abs e'))) as (d' & rest' & Hexp & Hd' & Hrest').
    assert (Hx : exponent ("e" +:+ sign +:+ decimal (Z.to_pos (Z.abs e')))).
    { apply exponent_e.
      - subst sign. destruct (e' <? 0)%Z; constructor.
      - rewrite Hexp. apply digits_allDigits; [discriminate|].
        split; [now apply onenine_digit | exact Hrest']. }
    destruct (Z.eqb_spec (Z.of_nat (S (String.length kept))) 1) as [Hone|Hmore].
    + exists (String d kept), "", ("e" +:+ sign +:+ decimal (Z.to_pos (Z.abs e'))).
      split; [reflexivity|]. split; [|split; [constructor | exact Hx]].
      now apply natural_leading.
    + exists (str1 d), ("." +:+ kept), ("e" +:+ sign +:+ decimal (Z.to_pos (Z.abs e'))).
      split; [cbn [takeChars dropChars]; now reassociate|].
      split; [|split; [|exact Hx]].
      * now apply natural_digit, onenine_digit.
      * apply fraction_some, digits_allDigits; [|exact Hkept].
        destruct kept; [simpl in Hmore; lia | discriminate].
Qed.

Lemma number_NumberToString (n : Number) :
  isFinite n = true -> number (NumberToString n).
Proof.
  destruct n as [ | negative | | negative s e]; try discriminate; intros _.
  - rewrite <- (append_empty_r (NumberToString Zero)).
    apply (number_parts _ "" ""); [|constructor|constructor].
    apply integer_plain, natural_digit. unfold digit. compute. lia.
  - destruct (positiveToString_parts s e) as (i & f & x & Hparts & Hi & Hf & Hx).
    destruct negative; cbn [NumberToString]; rewrite Hparts.
    + change ("-" +:+ i +:+ f +:+ x) with (("-" +:+ i) +:+ f +:+ x).
      apply number_parts; [now apply integer_minus | exact Hf | exact Hx].
    + apply number_parts; [now apply integer_plain | exact Hf | exact Hx].
Qed.

Lemma concat_cons (sep p q : string) (parts : list string) :
  String.concat sep (p :: q :: parts) = p +:+ sep +:+ String.concat sep (q :: parts).
Proof. reflexivity. Qed.

(** The items of an array, one per line. *)
Lemma elements_concat (w1 w2 : string) (parts : list string) :
  ws w1 -> ws w2 -> parts <> [] -> Forall value parts ->
  elements (w1 +:+ String.concat ("," +:+ w1) parts +:+ w2).
Proof.
  intros Hw1 Hw2 Hne Hall. induction Hall as [|p parts Hp Hall IH]; [congruence|].
  destruct parts as [|q parts].
  - simpl. apply elements_one, element_ws; assumption.
  - rewrite concat_cons.
    assert (Hrest : elements (w1 +:+ String.concat ("," +:+ w1) (q :: parts) +:+ w2))
      by (apply IH; congruence).
    set (rest := String.concat ("," +:+ w1) (q :: parts)) in *.
    replace (w1 +:+ (p +:+ ("," +:+ w1) +:+ rest) +:+ w2)
      with ((w1 +:+ p +:+ "") +:+ "," +:+ (w1 +:+ rest +:+ w2)).
    + apply elements_more; [|exact Hrest].
      apply element_ws; [assumption | assumption | constructor].
    + now reassociate.
Qed.

(** The properties of an object, one per line. *)
Lemma members_concat (w1 w2 w3 : string) (parts : list string) :
  ws w1 -> ws w2 -> ws w3 -> parts <> [] ->
  Forall (fun m => exists k v, m = k +:+ (":" +:+ w3) +:+ v /\ jstring k /\ value v) parts ->
  members (w1 +:+ String.concat ("," +:+ w1) parts +:+ w2).
Proof.
  intros Hw1 Hw2 Hw3 Hne Hall.
  induction Hall as [|p parts (k & v & -> & Hk & Hv) Hall IH]; [congruence|].
  destruct parts as [|q parts].
  - cbn [String.concat].
    replace (w1 +:+ (k +:+ (":" +:+ w3) +:+ v) +:+ w2)
      with (w1 +:+ k +:+ "" +:+ ":" +:+ (w3 +:+ v +:+ w2)).
    + apply members_one, member_pair; try assumption; [constructor|].
      apply element_ws; assumption.
    + now reassociate.
  - rewrite concat_cons.
    assert (Hrest : members (w1 +:+ String.concat ("," +:+ w1) (q :: parts) +:+ w2))
      by (apply IH; congruence).
    set (rest := String.concat ("," +:+ w1) (q :: parts)) in *.
    replace (w1 +:+ ((k +:+ (":" +:+ w3) +:+ v) +:+ ("," +:+ w1) +:+ rest) +:+ w2)
      with ((w1 +:+ k +:+ "" +:+ ":" +:+ (w3 +:+ v +:+ "")) +:+ "," +:+
            (w1 +:+ rest +:+ w2)).
    + apply members_more; [|exact Hrest].
      apply member_pair; try assumption; [constructor|].
      apply element_ws; [assumption | assumption | constructor].
    + now reassociate.
Qed.

Lemma value_SerializeJSONProperty (gap : string) (v : json) :
  ws gap -> forall indent, ws indent -> value (SerializeJSONProperty gap indent v).
Proof.
  intros Hgap. induction v as [ | b | n | s | items IH | props IH ] using json_induction;
    intros indent Hindent.
  - constructor.
  - destruct b; constructor.
  - cbn [SerializeJSONProperty]. destruct (isFinite n) eqn:Efinite.
    + now apply value_number, number_NumberToString.
    + constructor.
  - apply value_string, jstring_QuoteJSONString.
  - cbn [SerializeJSONProperty].
    assert (Hparts : Forall value (map (SerializeJSONProperty gap (indent +:+ gap)) items)).
    { apply List.Forall_map. eapply List.Forall_impl; [|exact IH]. simpl.
      intros v Hv. apply Hv, ws_app; assumption. }
    destruct (map (SerializeJSONProperty gap (indent +:+ gap)) items) as [|p parts] eqn:E.
    + apply (value_array_empty ""). constructor.
    + destruct gap as [|g gap].
      * apply value_array.
        pose proof (elements_concat "" "" (p :: parts)) as H.
        cbn [append] in H. rewrite append_empty_r in H.
        apply H; [constructor | constructor | congruence | exact Hparts].
      * set (w1 := str1 Char.lf +:+ (indent +:+ String g gap)).
        match goal with
        | |- value ?s =>
            replace s
              with ("[" +:+ (w1 +:+ String.concat ("," +:+ w1) (p :: parts)
                                +:+ (str1 Char.lf +:+ indent)) +:+ "]")
              by (subst w1; now reassociate)
        end.
        apply value_array, elements_concat; [| | congruence | exact Hparts].
        -- apply ws_lf, ws_app; assumption.
        -- apply ws_lf; assumption.
  - cbn [SerializeJSONProperty].
    set (colon := match gap with EmptyString => ":" | String _ _ => ": " end).
    assert (Hcolon : exists w3, ws w3 /\ colon = ":" +:+ w3).
    { destruct gap; [exists "" | exists " "]; split; try reflexivity.
      - constructor.
      - constructor; [left; reflexivity | constructor]. }
    destruct Hcolon as (w3 & Hw3 & Hcolon).
    match goal with |- context [map ?f props] => set (member := f) end.
    assert (Hparts :
              Forall (fun m => exists k v, m = k +:+ (":" +:+ w3) +:+ v /\ jstring k /\ value v)
                (map member props)).
    { apply List.Forall_map. eapply List.Forall_impl; [|exact IH]. simpl.
      intros [k v] Hv. exists (QuoteJSONString k), (SerializeJSONProperty gap (indent +:+ gap) v).
      subst member. cbn [fst snd]. rewrite Hcolon. split; [reflexivity|]. split.
      - apply jstring_QuoteJSONString.
      - apply Hv, ws_app; assumption. }
    destruct (map member props) as [|p parts] eqn:E.
    + apply (value_object_empty ""). constructor.
    + destruct gap as [|g gap].
      * apply value_object.
        pose proof (members_concat "" "" w3 (p :: parts)) as H.
        cbn [append] in H. rewrite append_empty_r in H.
        apply H; [constructor | constructor | exact Hw3 | congruence | exact Hparts].
      * set (w1 := str1 Char.lf +:+ (indent +:+ String g gap)).
        match goal with
        | |- value ?s =>
            replace s
              with ("{" +:+ (w1 +:+ String.concat ("," +:+ w1) (p :: parts)
                                +:+ (str1 Char.lf +:+ indent)) +:+ "}")
              by (subst w1; now reassociate)
        end.
        apply value_object, (members_concat _ _ w3);
          [| | exact Hw3 | congruence | exact Hparts].
        -- apply ws_lf, ws_app; assumption.
        -- apply ws_lf; assumption.
Qed.

(** What [JSON.stringify(value, null, space)] returns is a JSON text. *)
Lemma json_text_JSON_stringify (v : json) (space : nat) :
  json_text (JSON_stringify v space).
Proof.
  unfold json_text, JSON_stringify.
  rewrite <- (append_empty_r (SerializeJSONProperty _ _ _)).
  apply (element_ws ""); [constructor | | constructor].
  apply value_SerializeJSONProperty; [apply ws_spaces | constructor].
Qed.

End GrammarFacts.

(** ** eventMessage *)

Lemma strictEqString_true (v : option json) (s : string) :
  strictEqString v s = true <-> v = Some (JStr s).
Proof.
  destruct v as [[ | | | s' | | ]|]; simpl; try (split; [discriminate | congruence]).
  rewrite String.eqb_eq. split; congruence.
Qed.

Lemma strictEqString_failed (event : PlacementEvent.t) :
  ~ healthFailed event ->
  strictEqString (PlacementEvent.statusChange event !! "health") "failed" = false.
Proof.
  intros H. apply not_true_is_false. rewrite strictEqString_true. exact H.
Qed.

Lemma render_cons (paint : Colour -> string -> string) (p : Piece) (t : Text) :
  render paint (p :: t) = renderPiece paint p +:+ render paint t.
Proof. reflexivity. Qed.

Lemma render_app (paint : Colour -> string -> string) (a b : Text) :
  render paint (a ++ b) = render paint a +:+ render paint b.
Proof.
  induction a as [|x a IH]; [reflexivity|].
  rewrite <- app_comm_cons, !render_cons, IH. now rewrite append_assoc.
Qed.

Lemma render_plain (paint : Colour -> string -> string) (s : string) :
  render paint (plain s) = s.
Proof.
  induction s as [|c s IH]; [reflexivity|].
  change (plain (String c s)) with (Chr c :: plain s).
  rewrite render_cons, IH. reflexivity.
Qed.

Lemma render_styled (paint : Colour -> string -> string) (colour : Colour) (t : Text) :
  render paint [Styled colour t] = paint colour (render paint t).
Proof. rewrite render_cons. cbn [renderPiece]. apply append_empty_r. Qed.

(** Whatever the colour helpers are as functions on strings, the text of
    [eventMessage] stands for the string the source computes. *)
Lemma render_eventMessage (paint : Colour -> string -> string)
    (event : PlacementEvent.t) (lastEvent : bool) :
  render paint (eventMessage event lastEvent) =
    (let message := PlacementEvent.message event in
     let name := PlacementEvent.name event in
     if strictEqString (PlacementEvent.statusChange event !! "health") "failed" then
       paint BgRed " X " +:+ " " +:+ paint Dim message
     else if lastEvent && String.eqb name "VMStopped" then paint Yellow message
     else if (lastEvent && String.eqb name "VMStarted") || String.eqb name "SSHStarted"
          then paint Green message
     else if lastEvent then paint BrandColor message
     else paint Dim message)
    +:+ " (" +:+ PlacementEvent.time event +:+ ")".
Proof.
  unfold eventMessage, bgRed, dim, yellow, green, brandColor.
  rewrite !render_app, !render_plain.
  repeat match goal with
         | |- context [if ?b then _ else _] => destruct b
         end;
    rewrite ?render_app, ?render_styled, ?render_plain; reflexivity.
Qed.

(** C2.  An event whose health in [statusChange] is "failed" is rendered
    with the failure marker, " X " on a red background followed by the dimmed
    message, whatever its name and whether or not it is the last event. *)
Theorem eventMessage_failed_health (event : PlacementEvent.t) (lastEvent : bool) :
  healthFailed event ->
  eventMessage event lastEvent = failureMarked event.
Proof.
  intros H. unfold eventMessage. rewrite (proj2 (strictEqString_true _ _) H).
  reflexivity.
Qed.

Lemma eventMessage_failed_health_witness :
  healthFailed Sample.sshFailed
  /\ eventMessage Sample.sshFailed false = failureMarked Sample.sshFailed.
Proof.
  split.
  - reflexivity.
  - apply eventMessage_failed_health. reflexivity.
Defined.

(** C3, as stated, fails: an SSHStarted event with failed health gets the
    failure marker, in the last position and elsewhere, and not the green
    highlight. *)
Lemma SSHStarted_failed_health_not_green :
  PlacementEvent.name Sample.sshFailed = "SSHStarted"
  /\ (forall lastEvent,
        eventMessage Sample.sshFailed lastEvent = failureMarked Sample.sshFailed)
  /\ (forall lastEvent,
        eventMessage Sample.sshFailed lastEvent <> highlighted Green Sample.sshFailed).
Proof.
  split; [reflexivity|]. split.
  - intros [|]; reflexivity.
  - intros [|]; vm_compute; discriminate.
Qed.

(** C3, amended.  An SSHStarted event whose health is not "failed" is
    rendered with its message highlighted green, in every position of the
    event list. *)
Theorem eventMessage_SSHStarted_green (event : PlacementEvent.t) (lastEvent : bool) :
  PlacementEvent.name event = "SSHStarted" ->
  ~ healthFailed event ->
  eventMessage event lastEvent = highlighted Green event.
Proof.
  intros Hname Hhealth. unfold eventMessage.
  rewrite (strictEqString_failed _ Hhealth), Hname.
  destruct lastEvent; reflexivity.
Qed.

Lemma eventMessage_SSHStarted_green_witness :
  (PlacementEvent.name Sample.sshStarted = "SSHStarted"
   /\ ~ healthFailed Sample.sshStarted)
  /\ eventMessage Sample.sshStarted false = highlighted Green Sample.sshStarted.
Proof.
  assert (H : ~ healthFailed Sample.sshStarted) by (vm_compute; discriminate).
  split.
  - split; [reflexivity | exact H].
  - apply eventMessage_SSHStarted_green; [reflexivity | exact H].
Defined.

(** C4.  For an event whose health is not "failed": a VMStopped event is
    rendered yellow exactly when it is the last event, a VMStarted event is
    rendered green exactly when it is the last event, and an event that is
    not the last and is not SSHStarted is rendered dimmed. *)
Theorem eventMessage_last_event_colours (event : PlacementEvent.t) (lastEvent : bool) :
  ~ healthFailed event ->
  (PlacementEvent.name event = "VMStopped" ->
     (eventMessage event lastEvent = highlighted Yellow event <-> lastEvent = true))
  /\ (PlacementEvent.name event = "VMStarted" ->
        (eventMessage event lastEvent = highlighted Green event <-> lastEvent = true))
  /\ (lastEvent = false -> PlacementEvent.name event <> "SSHStarted" ->
        eventMessage event lastEvent = highlighted Dim event).
Proof.
  intros Hhealth. unfold eventMessage.
  rewrite (strictEqString_failed _ Hhealth).
  split; [|split].
  - intros Hname. rewrite Hname. destruct lastEvent; simpl.
    + split; reflexivity.
    + split; discriminate.
  - intros Hname. rewrite Hname. destruct lastEvent; simpl.
    + split; reflexivity.
    + split; discriminate.
  - intros -> Hname. apply String.eqb_neq in Hname. simpl. rewrite Hname. reflexivity.
Qed.

Lemma eventMessage_last_event_colours_witness :
  ~ healthFailed Sample.vmStopped
  /\ (eventMessage Sample.vmStopped true = highlighted Yellow Sample.vmStopped
      <-> true = true).
Proof.
  assert (H : ~ healthFailed Sample.vmStopped) by (vm_compute; discriminate).
  split; [exact H|].
  exact (proj1 (eventMessage_last_event_colours Sample.vmStopped true H) eq_refl).
Defined.

(** The flag [lastEvent] that [placementToOptions] passes for the event at
    index [i] says whether [i] is the last index of the placement's events;
    the event lines follow the four header lines. *)
Lemma placementToOptions_event_line
    (statusToColored : option json -> Text) (space : nat -> Text)
    (p : PlacementWithEvents.t) (i : nat) (event : PlacementEvent.t) :
  PlacementWithEvents.events p !! i = Some event ->
  PromptOption.details (placementToOptions statusToColored space p) !! (4 + i)
  = Some (space 1
            ++ eventMessage event
                 (bool_decide (S i = length (PlacementWithEvents.events p)))).
Proof.
  intros H. unfold placementToOptions. cbn [PromptOption.details].
  rewrite lookup_app_r by (simpl; lia).
  replace (4 + i - length _) with i by (simpl; lia).
  rewrite list_lookup_imap, H. cbn [fmap option_fmap option_map]. do 2 f_equal.
  destruct (Z.eqb_spec (Z.of_nat i) (Z.of_nat (length (PlacementWithEvents.events p)) - 1)).
  - rewrite bool_decide_eq_true_2 by lia. reflexivity.
  - rewrite bool_decide_eq_false_2 by lia. reflexivity.
Qed.

(** ** onRefresh *)

Lemma now_record (eff : Effect) (s : State) : now (record eff s) = S (now s).
Proof. unfold now, record. cbn [trace]. rewrite length_app. simpl. lia. Qed.

Lemma cells_record (eff : Effect) (s : State) : cells (record eff s) = cells s.
Proof. reflexivity. Qed.

Section Refresh.

Variable statusToColored : option json -> Text.
Variable space : nat -> Text.

Local Abbreviation toOptions := (placementToOptions statusToColored space).

(** One run of the callback, case by case. *)
Lemma onRefresh_run (deployment : Deployment.t) (refresh : nat) (w : World) (s : State) :
  onRefresh statusToColored space deployment refresh w s =
    let s1 := record (Start "Refreshing placements") s in
    let s2 := record (ListPlacements (Deployment.id deployment) true) s1 in
    match listPlacements w (S (now s)) (Deployment.id deployment) with
    | Err e => (Thrown e, s2)
    | Ok placements =>
        if default false (cells s !! refresh) then (Done [], s2)
        else
          match map toOptions placements with
          | [] => (Done [], record Stop s2)
          | first :: rest =>
              (Done (PromptOption.withLabel first
                       (PromptOption.label first +:+ ", last refresh: "
                          +:+ toLocaleString w (S (S (S (now s)))))
                     :: rest),
               record NewDate (record Stop s2))
          end
    end.
Proof.
  unfold onRefresh, bind, emit, await, readCell, newDate, ret, loadPlacements,
    loadPlacementsAnswer.
  rewrite !now_record.
  destruct (listPlacements w (S (now s)) (Deployment.id deployment)) as [ps|e];
    [|reflexivity].
  rewrite !cells_record.
  destruct (default false (cells s !! refresh)); [reflexivity|].
  destruct (map toOptions ps); [reflexivity|].
  rewrite !now_record. reflexivity.
Qed.

(** The callback does not assign [refresh]. *)
Lemma onRefresh_cells (deployment : Deployment.t) (refresh : nat) (w : World) (s : State) :
  cells (snd (onRefresh statusToColored space deployment refresh w s)) = cells s.
Proof.
  rewrite onRefresh_run. cbv zeta.
  destruct (listPlacements _ _ _); [|reflexivity].
  destruct (default false _); [reflexivity|].
  destruct (map _ _); reflexivity.
Qed.

(** C5, amended.  When the service returns the same placements to two
    runs of the refresh callback and the variable [refresh] holds the same
    value as each of them reaches its guard, both runs complete and return
    the same options in the same order, except for the label of the first
    entry: in each run it is the plain label of the first placement
    followed by ", last refresh: " and the time of that run. *)
Theorem onRefresh_twice (deployment : Deployment.t) (refresh : nat) (w : World)
    (s s2 : State) (placements : list PlacementWithEvents.t) (open : bool) :
  listPlacements w (S (now s)) (Deployment.id deployment) = Ok placements ->
  listPlacements w (S (now s2)) (Deployment.id deployment) = Ok placements ->
  cells s !! refresh = Some open ->
  cells s2 !! refresh = Some open ->
  exists options1 options2,
    fst (onRefresh statusToColored space deployment refresh w s) = Done options1
    /\ fst (onRefresh statusToColored space deployment refresh w s2) = Done options2
    /\ length options1 = length options2
    /\ (forall i, 0 < i -> options1 !! i = options2 !! i)
    /\ (forall o1,
          options1 !! 0 = Some o1 ->
          exists o2 p,
            options2 !! 0 = Some o2
            /\ placements !! 0 = Some p
            /\ PromptOption.label o1
               = PromptOption.label (toOptions p) +:+ ", last refresh: "
                   +:+ toLocaleString w (now s + 3)
            /\ PromptOption.label o2
               = PromptOption.label (toOptions p) +:+ ", last refresh: "
                   +:+ toLocaleString w (now s2 + 3)
            /\ PromptOption.details o1 = PromptOption.details o2
            /\ PromptOption.value o1 = PromptOption.value o2).
Proof.
  intros H1 H2 Hcell1 Hcell2. rewrite !onRefresh_run. cbv zeta.
  rewrite H1, H2, Hcell1, Hcell2. cbn [default]. destruct open.
  - exists [], []. repeat split. intros o1 Ho1. discriminate Ho1.
  - destruct placements as [|p placements]; cbn [map].
    + exists [], []. repeat split. intros o1 Ho1. discriminate Ho1.
    + eexists _, _. split; [reflexivity|]. split; [reflexivity|].
      split; [reflexivity|]. split.
      * intros [|i] Hi; [lia | reflexivity].
      * intros o1 [= <-]. eexists _, p. split; [reflexivity|].
        split; [reflexivity|].
        replace (now s + 3) with (S (S (S (now s)))) by lia.
        replace (now s2 + 3) with (S (S (S (now s2)))) by lia.
        repeat split.
Qed.

(** C8, amended.  While the prompt is open (the variable [refresh] still
    holds false), the callback returns one option per freshly fetched
    placement, in order: the first is the option of the first placement
    with ", last refresh: " and the current time appended to its label,
    every other one is the plain option of its placement.  Once the prompt
    has been left ([refresh] holds true), it returns no option. *)
Theorem onRefresh_options (deployment : Deployment.t) (refresh : nat) (w : World)
    (s : State) (placements : list PlacementWithEvents.t) :
  listPlacements w (S (now s)) (Deployment.id deployment) = Ok placements ->
  (cells s !! refresh = Some false ->
     exists options,
       fst (onRefresh statusToColored space deployment refresh w s) = Done options
       /\ length options = length placements
       /\ (forall i, 0 < i -> options !! i = toOptions <$> placements !! i)
       /\ (forall p, placements !! 0 = Some p ->
             exists o,
               options !! 0 = Some o
               /\ PromptOption.label o
                  = PromptOption.label (toOptions p) +:+ ", last refresh: "
                      +:+ toLocaleString w (now s + 3)
               /\ PromptOption.details o = PromptOption.details (toOptions p)
               /\ PromptOption.value o = PromptOption.value (toOptions p)))
  /\ (cells s !! refresh = Some true ->
        fst (onRefresh statusToColored space deployment refresh w s) = Done []).
Proof.
  intros Hfetch. rewrite onRefresh_run. cbv zeta. rewrite Hfetch. split.
  - intros ->. cbn [default].
    destruct placements as [|p0 placements]; cbn [map].
    + exists []. repeat split. intros p Hp. discriminate Hp.
    + eexists. split; [reflexivity|]. split; [simpl; now rewrite length_map|].
      split.
      * intros [|i] Hi; [lia|]. cbn [lookup list_lookup].
        apply list_lookup_fmap.
      * intros p [= <-]. eexists. split; [reflexivity|].
        replace (now s + 3) with (S (S (S (now s)))) by lia.
        repeat split.
  - intros ->. reflexivity.
Qed.

(** C10.  When the fetch of a refresh returns no placement, the callback
    returns the empty option list; it performs the start of the spinner
    and the fetch, then at most the stop of the spinner: the time is not
    read and no label is touched. *)
Theorem onRefresh_no_placements (deployment : Deployment.t) (refresh : nat)
    (w : World) (s : State) :
  listPlacements w (S (now s)) (Deployment.id deployment) = Ok [] ->
  exists s' tail,
    onRefresh statusToColored space deployment refresh w s = (Done [], s')
    /\ trace s'
       = trace s
           ++ [Start "Refreshing placements";
               ListPlacements (Deployment.id deployment) true]
           ++ tail
    /\ (tail = [] \/ tail = [Stop])
    /\ cells s' = cells s.
Proof.
  intros Hfetch. rewrite onRefresh_run. cbv zeta. rewrite Hfetch.
  destruct (default false (cells s !! refresh)); cbn [map].
  - eexists _, []. split; [reflexivity|]. cbn [trace record cells].
    rewrite <- !app_assoc. repeat split. now left.
  - eexists _, [Stop]. split; [reflexivity|]. cbn [trace record cells].
    rewrite <- !app_assoc. repeat split. now right.
Qed.

End Refresh.

(** ** The non-interactive branch *)

Lemma prefix_spec (p s : string) :
  String.prefix p s = true <-> exists rest, s = p +:+ rest.
Proof.
  revert p. induction s as [|c s IH]; intros [|a p]; simpl.
  - split; [exists ""; reflexivity | reflexivity].
  - split; [discriminate | intros [rest H]; discriminate H].
  - split; [exists (String c s); reflexivity | reflexivity].
  - destruct (ascii_dec a c) as [->|Hne].
    + rewrite IH. split; intros [rest H]; exists rest; congruence.
    + split; [discriminate | intros [rest H]; congruence].
Qed.

Lemma filter_sublist {A : Type} (f : A -> bool) (l : list A) :
  sublist (List.filter f l) l.
Proof.
  induction l as [|x l IH]; simpl; [constructor|].
  destruct (f x); constructor; exact IH.
Qed.



Lemma record_twice (a b : Effect) (s : State) :
  record b (record a s) = {| trace := trace s ++ [a; b]; cells := cells s |}.
Proof. unfold record. cbn [trace cells]. now rewrite <- app_assoc. Qed.

Lemma record_thrice (a b c : Effect) (s : State) :
  record c (record b (record a s))
  = {| trace := trace s ++ [a; b; c]; cells := cells s |}.
Proof. unfold record. cbn [trace cells]. now rewrite <- !app_assoc. Qed.

Lemma record_four (a b c d : Effect) (s : State) :
  record d (record c (record b (record a s)))
  = {| trace := trace s ++ [a; b; c; d]; cells := cells s |}.
Proof. unfold record. cbn [trace cells]. now rewrite <- !app_assoc. Qed.

Lemma getProp_setProp (k : string) (v : json) (o : list (string * json)) :
  getProp k (setProp k v o) = Some v.
Proof.
  induction o as [|[k' v'] o IH]; simpl.
  - now rewrite String.eqb_refl.
  - destruct (String.eqb k' k) eqn:E; simpl; now rewrite E.
Qed.

Lemma getProp_setProp_other (k k0 : string) (v : json) (o : list (string * json)) :
  k0 <> k -> getProp k0 (setProp k v o) = getProp k0 o.
Proof.
  intros Hne. induction o as [|[k' v'] o IH]; simpl.
  - apply String.eqb_neq in Hne. rewrite String.eqb_sym. now rewrite Hne.
  - destruct (String.eqb k' k) eqn:E; simpl.
    + apply String.eqb_eq in E. subst k'.
      assert (H : String.eqb k k0 = false) by (apply String.eqb_neq; congruence).
      now rewrite H.
    + now rewrite IH.
Qed.

Section NonInteractive.

Variable statusToColored : option json -> Text.
Variable space : nat -> Text.
Variable shapes_bar : string.

Local Abbreviation command := (handler statusToColored space shapes_bar).

(** One run of the branch, case by case. *)
Lemma jsonOutput_run (prefix : string) (args : ListArgs.t) (w : World) (s : State) :
  jsonOutput prefix args w s =
    let call :=
      ListDeployments (ListArgs.location args) (ListArgs.image args)
        (ListArgs.state args) (ListArgs.ipv4 args) in
    match
      listDeployments w (now s) (ListArgs.location args) (ListArgs.image args)
        (ListArgs.state args) (ListArgs.ipv4 args)
    with
    | Err e => (Thrown e, record call s)
    | Ok listed =>
        match filterByPrefix prefix listed with
        | [only] =>
            let fetch := ListPlacements (Deployment.id only) true in
            match listPlacements w (S (now s)) (Deployment.id only) with
            | Err e => (Thrown e, record fetch (record call s))
            | Ok placements =>
                (Done tt,
                 record
                   (ConsoleLog
                      (JSON_stringify
                         (JObj (setProp "placements"
                                  (JArr (map PlacementWithEvents.raw placements))
                                  (Deployment.props only)))
                         4))
                   (record fetch (record call s)))
            end
        | kept =>
            (Done tt,
             record (ConsoleLog (JSON_stringify (JArr (map Deployment.toJSON kept)) 4))
               (record call s))
        end
    end.
Proof.
  unfold jsonOutput, bind, await, consoleLog, emit. cbv zeta.
  destruct (listDeployments w (now s) _ _ _ _) as [listed|e]; [|reflexivity].
  destruct (filterByPrefix prefix listed) as [|only [|another kept]]; try reflexivity.
  rewrite now_record.
  destruct (listPlacements w (S (now s)) (Deployment.id only)); reflexivity.
Qed.

Lemma handler_json_run (fuel : nat) (args : ListArgs.t) (config : Config.t)
    (w : World) (s : State) :
  Config.json config = true \/ isInteractive w = false ->
  command fuel args config w s =
    match loadAccountSpinner w (now s) with
    | Err e => (Thrown e, record LoadAccountSpinner s)
    | Ok _ =>
        jsonOutput (default "" (ListArgs.deploymentIdPrefix args)) args w
          (record LoadAccountSpinner s)
    end.
Proof.
  intros Hmode. unfold handler, bind, await, ask.
  destruct (loadAccountSpinner w (now s)); [|reflexivity].
  destruct Hmode as [-> | ->]; [reflexivity|]. now rewrite orb_true_r.
Qed.

(** C1.  In the non-interactive branch the filters of the command line go
    to the service unchanged; when the prefix filter keeps exactly one
    deployment, the output is that deployment's object with its placement
    list set under the key [placements]; otherwise the output is the array
    of the deployments kept. *)
Theorem handler_json_output (fuel : nat) (args : ListArgs.t) (config : Config.t)
    (w : World) (s : State) (listed : list Deployment.t) :
  let prefix := default "" (ListArgs.deploymentIdPrefix args) in
  let call :=
    ListDeployments (ListArgs.location args) (ListArgs.image args)
      (ListArgs.state args) (ListArgs.ipv4 args) in
  let kept := filterByPrefix prefix listed in
  Config.json config = true \/ isInteractive w = false ->
  loadAccountSpinner w (now s) = Ok tt ->
  listDeployments w (S (now s)) (ListArgs.location args) (ListArgs.image args)
    (ListArgs.state args) (ListArgs.ipv4 args) = Ok listed ->
  (forall only placements,
      kept = [only] ->
      listPlacements w (S (S (now s))) (Deployment.id only) = Ok placements ->
      let merged :=
        setProp "placements" (JArr (map PlacementWithEvents.raw placements))
          (Deployment.props only) in
      command fuel args config w s
      = (Done tt,
         {| trace :=
              trace s
                ++ [LoadAccountSpinner; call;
                    ListPlacements (Deployment.id only) true;
                    ConsoleLog (JSON_stringify (JObj merged) 4)];
            cells := cells s |})
      /\ getProp "placements" merged
         = Some (JArr (map PlacementWithEvents.raw placements))
      /\ forall k, k <> "placements" ->
                   getProp k merged = getProp k (Deployment.props only))
  /\ (length kept <> 1 ->
      command fuel args config w s
      = (Done tt,
         {| trace :=
              trace s
                ++ [LoadAccountSpinner; call;
                    ConsoleLog (JSON_stringify (JArr (map Deployment.toJSON kept)) 4)];
            cells := cells s |})).
Proof.
  intros prefix call kept Hmode Haccount Hlist.
  rewrite (handler_json_run _ _ _ _ _ Hmode), Haccount, jsonOutput_run.
  cbv zeta. rewrite !now_record, Hlist. subst prefix kept call. split.
  - intros only placements Hkept Hfetch. rewrite Hkept, Hfetch, record_four.
    split; [reflexivity|]. split.
    + apply getProp_setProp.
    + intros k Hk. now apply getProp_setProp_other.
  - intros Hlen.
    destruct (filterByPrefix _ listed) as [|only [|another kept']].
    + now rewrite record_thrice.
    + now contradiction Hlen.
    + now rewrite record_thrice.
Qed.

End NonInteractive.

(** ** Failures *)

Lemma allSettled_nil (w : World) (t : nat) : allSettled w t [].
Proof. intros i eff H. discriminate H. Qed.

Lemma allSettled_one (w : World) (t : nat) (eff : Effect) :
  awaitedFailure w t eff = None -> allSettled w t [eff].
Proof.
  intros H [|i] x Hx; [|destruct i; discriminate Hx].
  injection Hx as <-. now rewrite Nat.add_0_r.
Qed.

Lemma allSettled_app (w : World) (t : nat) (a b : list Effect) :
  allSettled w t a -> allSettled w (t + length a) b -> allSettled w t (a ++ b).
Proof.
  intros Ha Hb i eff H. destruct (Nat.lt_ge_cases i (length a)) as [Hi|Hi].
  - rewrite lookup_app_l in H by exact Hi. now apply Ha.
  - rewrite lookup_app_r in H by exact Hi. apply Hb in H.
    now replace (t + length a + (i - length a)) with (t + i) in H by lia.
Qed.

Lemma propagates_app {A : Type} (w : World) (t : nat) (a b : list Effect)
    (o : Outcome A) :
  allSettled w t a -> propagates w (t + length a) b o -> propagates w t (a ++ b) o.
Proof.
  intros Ha. destruct o as [x|e|]; simpl.
  - now apply allSettled_app.
  - intros (pre & eff & -> & Hpre & Heff). exists (a ++ pre), eff.
    split; [now rewrite app_assoc|]. split; [now apply allSettled_app|].
    now rewrite length_app, Nat.add_assoc.
  - now apply allSettled_app.
Qed.

Lemma now_app (s s' : State) (effects : list Effect) :
  trace s' = trace s ++ effects -> now s' = now s + length effects.
Proof. unfold now. intros ->. apply length_app. Qed.

Lemma sound_ret {A : Type} (a : A) : sound (ret a).
Proof.
  intros w s. exists []. split; [now rewrite app_nil_r | apply allSettled_nil].
Qed.

Lemma sound_bind {A B : Type} (m : M A) (k : A -> M B) :
  sound m -> (forall a, sound (k a)) -> sound (bind m k).
Proof.
  intros Hm Hk w s. unfold bind. destruct (Hm w s) as (e1 & Ht1 & Hp1).
  destruct (m w s) as [[a|e|] s1]; cbn [fst snd] in *.
  - destruct (Hk a w s1) as (e2 & Ht2 & Hp2). exists (e1 ++ e2). split.
    + now rewrite Ht2, Ht1, app_assoc.
    + apply propagates_app; [exact Hp1|]. now rewrite <- (now_app _ _ _ Ht1).
  - exists e1. now split.
  - exists e1. now split.
Qed.

Lemma sound_emit (eff : Effect) :
  (forall w t, awaitedFailure w t eff = None) -> sound (emit eff).
Proof.
  intros H w s. exists [eff]. split; [reflexivity|]. apply allSettled_one, H.
Qed.

Lemma sound_await {A : Type} (eff : Effect) (answer : World -> nat -> Result A) :
  (forall w t, awaitedFailure w t eff = failureOf (answer w t)) ->
  sound (await eff answer).
Proof.
  intros H w s. exists [eff]. unfold await.
  specialize (H w (now s)). destruct (answer w (now s)) as [a|e]; cbn [fst snd].
  - split; [reflexivity|]. apply allSettled_one, H.
  - split; [reflexivity|]. exists [], eff. split; [reflexivity|].
    split; [apply allSettled_nil|]. now rewrite Nat.add_0_r.
Qed.

Lemma sound_request {A : Type} (eff : Effect) (answer : World -> nat -> Result A) :
  (forall w t, awaitedFailure w t eff = None) -> sound (request eff answer).
Proof.
  intros H w s. exists [eff]. split; [reflexivity|]. apply allSettled_one, H.
Qed.

Lemma sound_silent {A : Type} (m : M A) :
  (forall w s, trace (snd (m w s)) = trace s /\ forall e, fst (m w s) <> Thrown e) ->
  sound m.
Proof.
  intros H w s. destruct (H w s) as [Ht Hne]. exists []. split.
  - now rewrite app_nil_r.
  - destruct (fst (m w s)) as [a|e|]; try apply allSettled_nil. now destruct (Hne e).
Qed.

Lemma sound_newDate : sound newDate.
Proof.
  intros w s. exists [NewDate]. split; [reflexivity|]. now apply allSettled_one.
Qed.

Create HintDb sound discriminated.
#[local] Hint Resolve sound_ret sound_bind sound_newDate : sound.
#[local] Hint Extern 1 (sound (emit _)) => (apply sound_emit; reflexivity) : sound.
#[local] Hint Extern 1 (sound (consoleLog _)) => (apply sound_emit; reflexivity) : sound.
#[local] Hint Extern 1 (sound (await _ _)) => (apply sound_await; reflexivity) : sound.
#[local] Hint Extern 1 (sound (request _ _)) => (apply sound_request; reflexivity) : sound.
#[local] Hint Extern 1 (sound (alloc _)) =>
  (apply sound_silent; intros; split; [reflexivity | discriminate]) : sound.
#[local] Hint Extern 1 (sound (readCell _)) =>
  (apply sound_silent; intros; split; [reflexivity | discriminate]) : sound.
#[local] Hint Extern 1 (sound (writeCell _ _)) =>
  (apply sound_silent; intros; split; [reflexivity | discriminate]) : sound.
#[local] Hint Extern 1 (sound (ask _)) =>
  (apply sound_silent; intros; split; [reflexivity | discriminate]) : sound.
#[local] Hint Extern 1 (sound (askNow _)) =>
  (apply sound_silent; intros; split; [reflexivity | discriminate]) : sound.
#[local] Hint Extern 1 (sound running) =>
  (apply sound_silent; intros; split; [reflexivity | discriminate]) : sound.
#[local] Hint Extern 2 (sound (if ?b then _ else _)) => destruct b : sound.
#[local] Hint Extern 2 (sound (match ?l with [] => _ | _ :: _ => _ end)) =>
  destruct l : sound.

Section Propagation.

Variable statusToColored : option json -> Text.
Variable space : nat -> Text.
Variable shapes_bar : string.

Lemma sound_onRefresh (deployment : Deployment.t) (refresh : nat) :
  sound (onRefresh statusToColored space deployment refresh).
Proof.
  unfold onRefresh, loadPlacements, loadPlacementsAnswer.
  apply sound_bind; [auto with sound | intros _].
  apply sound_bind; [auto with sound | intros placements].
  apply sound_bind; [auto with sound | intros stale].
  destruct stale; [auto with sound|].
  apply sound_bind; [auto with sound | intros _].
  destruct (map _ placements); auto with sound.
Qed.

Lemma sound_promptRefreshes (presses : nat) (callback : M (list PromptOption.t)) :
  sound callback ->
  forall shown, sound (promptRefreshes presses shown callback).
Proof.
  intros Hcallback. induction presses as [|presses IH]; intros shown;
    cbn [promptRefreshes].
  - auto with sound.
  - apply sound_bind; [exact Hcallback | intros refreshed; apply IH].
Qed.

Lemma sound_runInputPrompt (options : list PromptOption.t)
    (deployment : Deployment.t) (refresh : nat) :
  sound (runInputPrompt statusToColored space options deployment refresh).
Proof.
  unfold runInputPrompt.
  apply sound_bind; [auto with sound | intros _].
  apply sound_bind; [auto with sound | intros presses].
  apply sound_bind; [apply sound_promptRefreshes, sound_onRefresh | intros shown].
  auto with sound.
Qed.

Lemma sound_listIteration (prefix : string) (args : ListArgs.t) :
  sound (listIteration statusToColored space shapes_bar prefix args).
Proof.
  unfold listIteration, loadPlacements, loadPlacementsAnswer.
  repeat (apply sound_bind;
          [first [apply sound_runInputPrompt | auto with sound] | intros ?]).
  auto with sound.
Qed.

Lemma sound_listCommandHandle (fuel : nat) (prefix : string) (args : ListArgs.t) :
  sound (listCommandHandle statusToColored space shapes_bar fuel prefix args).
Proof.
  induction fuel as [|fuel IH]; cbn [listCommandHandle].
  - auto with sound.
  - apply sound_bind; [apply sound_listIteration | intros _; exact IH].
Qed.

Lemma sound_jsonOutput (prefix : string) (args : ListArgs.t) :
  sound (jsonOutput prefix args).
Proof.
  unfold jsonOutput. cbv zeta. apply sound_bind; [auto with sound | intros listed].
  destruct (filterByPrefix prefix listed) as [|only [|another kept]];
    auto with sound.
Qed.

Lemma sound_handler (fuel : nat) (args : ListArgs.t) (config : Config.t) :
  sound (handler statusToColored space shapes_bar fuel args config).
Proof.
  unfold handler.
  apply sound_bind; [auto with sound | intros _].
  apply sound_bind; [auto with sound | intros interactive].
  destruct (Config.json config || negb interactive).
  - apply sound_jsonOutput.
  - apply sound_listCommandHandle.
Qed.

End Propagation.

Lemma sound_run {A : Type} (m : M A) (w : World) (s s' : State) (o : Outcome A)
    (effects : list Effect) :
  sound m -> m w s = (o, s') -> trace s' = trace s ++ effects ->
  propagates w (now s) effects o.
Proof.
  intros Hm Hrun Ht. destruct (Hm w s) as (effects' & Ht' & Hp).
  rewrite Hrun in Ht', Hp. cbn [fst snd] in Ht', Hp.
  rewrite Ht in Ht'. apply app_inv_head in Ht'. now subst effects'.
Qed.

Section Command.

Variable statusToColored : option json -> Text.
Variable space : nat -> Text.
Variable shapes_bar : string.

Local Abbreviation command := (handler statusToColored space shapes_bar).

(** C7.  With [--json], or in a session that is not interactive, the
    command makes service calls only and, unless one of them fails, prints
    exactly one line: [JSON.stringify] with an indent of four spaces of its
    result, which is the array of the deployments kept or, when exactly one
    is kept, that deployment's object with its placements; the line is a
    JSON text.  When a call fails the handler throws and prints nothing. *)
Theorem handler_json_flag (fuel : nat) (args : ListArgs.t) (config : Config.t)
    (w : World) (s : State) :
  let prefix := default "" (ListArgs.deploymentIdPrefix args) in
  let call :=
    ListDeployments (ListArgs.location args) (ListArgs.image args)
      (ListArgs.state args) (ListArgs.ipv4 args) in
  Config.json config = true \/ isInteractive w = false ->
  exists calls,
    Forall isServiceCall calls
    /\ ((exists value listed,
            command fuel args config w s
            = (Done tt,
               {| trace := trace s ++ calls ++ [ConsoleLog (JSON_stringify value 4)];
                  cells := cells s |})
            /\ Grammar.json_text (JSON_stringify value 4)
            /\ allSettled w (now s) calls
            /\ listDeployments w (S (now s)) (ListArgs.location args)
                 (ListArgs.image args) (ListArgs.state args) (ListArgs.ipv4 args)
               = Ok listed
            /\ ((length (filterByPrefix prefix listed) <> 1
                 /\ calls = [LoadAccountSpinner; call]
                 /\ value = JArr (map Deployment.toJSON (filterByPrefix prefix listed)))
                \/ (exists only placements,
                       filterByPrefix prefix listed = [only]
                       /\ listPlacements w (S (S (now s))) (Deployment.id only)
                          = Ok placements
                       /\ calls
                          = [LoadAccountSpinner; call;
                             ListPlacements (Deployment.id only) true]
                       /\ value
                          = JObj (setProp "placements"
                                    (JArr (map PlacementWithEvents.raw placements))
                                    (Deployment.props only)))))
        \/ (exists e,
               command fuel args config w s
               = (Thrown e, {| trace := trace s ++ calls; cells := cells s |})
               /\ propagates w (now s) calls (Thrown e : Outcome unit))).
Proof.
  intros prefix call Hmode.
  pose proof (sound_handler statusToColored space shapes_bar fuel args config) as Hsound.
  assert (Hsettled :
            forall calls line s',
              command fuel args config w s = (Done tt, s') ->
              trace s' = trace s ++ calls ++ [ConsoleLog line] ->
              allSettled w (now s) calls).
  { intros calls line s' Hrun Ht.
    pose proof (sound_run _ _ _ _ _ _ Hsound Hrun Ht) as Hp. cbn in Hp.
    intros i eff Hi. apply Hp. apply lookup_app_l_Some, Hi. }
  assert (Hthrown :
            forall calls e s',
              command fuel args config w s = (Thrown e, s') ->
              trace s' = trace s ++ calls ->
              propagates w (now s) calls (Thrown e : Outcome unit)).
  { intros calls e s' Hrun Ht. exact (sound_run _ _ _ _ _ _ Hsound Hrun Ht). }
  clear Hsound. revert Hsettled Hthrown.
  rewrite (handler_json_run _ _ _ _ _ _ _ _ Hmode), jsonOutput_run. cbv zeta.
  rewrite !now_record. fold prefix call.
  destruct (loadAccountSpinner w (now s)) as [[]|e]; intros Hsettled Hthrown.
  - destruct (listDeployments w (S (now s)) _ _ _ _) as [listed|e].
    + assert (Hmany :
                length (filterByPrefix prefix listed) <> 1 ->
                exists calls,
                  Forall isServiceCall calls
                  /\ calls = [LoadAccountSpinner; call]
                  /\ record
                       (ConsoleLog
                          (JSON_stringify
                             (JArr (map Deployment.toJSON (filterByPrefix prefix listed)))
                             4))
                       (record call (record LoadAccountSpinner s))
                     = {| trace :=
                            trace s ++ calls
                              ++ [ConsoleLog
                                    (JSON_stringify
                                       (JArr (map Deployment.toJSON
                                                (filterByPrefix prefix listed)))
                                       4)];
                          cells := cells s |}).
      { intros _. exists [LoadAccountSpinner; call]. split; [|split].
        - repeat constructor.
        - reflexivity.
        - now rewrite record_thrice. }
      destruct (filterByPrefix prefix listed) as [|only [|another kept]] eqn:Ekept.
      * destruct Hmany as (calls & Hcalls & Hshape & Hstate); [simpl; lia|].
        exists calls. split; [exact Hcalls|]. left. eexists _, listed.
        rewrite Hstate. split; [reflexivity|].
        split; [apply GrammarFacts.json_text_JSON_stringify|].
        split; [eapply Hsettled; [now rewrite Hstate | reflexivity]|].
        split; [reflexivity|]. rewrite Ekept. left. split; [simpl; lia|]. now split.
      * destruct (listPlacements w (S (S (now s))) (Deployment.id only))
          as [placements|e] eqn:Efetch.
        -- exists [LoadAccountSpinner; call; ListPlacements (Deployment.id only) true].
           split; [repeat constructor|]. left. eexists _, listed.
           rewrite record_four. split; [reflexivity|].
           split; [apply GrammarFacts.json_text_JSON_stringify|].
           split; [eapply Hsettled; [now rewrite record_four | reflexivity]|].
           split; [reflexivity|]. right. exists only, placements. now repeat split.
        -- exists [LoadAccountSpinner; call; ListPlacements (Deployment.id only) true].
           split; [repeat constructor|]. right. exists e. rewrite record_thrice.
           split; [reflexivity|].
           eapply Hthrown; [now rewrite record_thrice | reflexivity].
      * destruct Hmany as (calls & Hcalls & Hshape & Hstate); [simpl; lia|].
        exists calls. split; [exact Hcalls|]. left. eexists _, listed.
        rewrite Hstate. split; [reflexivity|].
        split; [apply GrammarFacts.json_text_JSON_stringify|].
        split; [eapply Hsettled; [now rewrite Hstate | reflexivity]|].
        split; [reflexivity|]. rewrite Ekept. left. split; [simpl; lia|]. now split.
    + exists [LoadAccountSpinner; call]. split; [repeat constructor|].
      right. exists e. rewrite record_twice. split; [reflexivity|].
      eapply Hthrown; [now rewrite record_twice | reflexivity].
  - exists [LoadAccountSpinner]. split; [repeat constructor|].
    right. exists e. split; [reflexivity|].
    eapply Hthrown; reflexivity.
Qed.


End Command.

(** An empty result raises no failure in the non-interactive branch: for an
    account without deployments the empty array is printed and the callback
    given to [handleFailure] completes. *)
Lemma handler_json_empty_result :
  handler Sample.statusToColored Sample.space "|" 0 (Sample.args None)
    Sample.jsonConfig Sample.emptyWorld initial
  = (Done tt,
     {| trace :=
          [LoadAccountSpinner; ListDeployments None None None None; ConsoleLog "[]"];
        cells := [] |}).
Proof. reflexivity. Qed.

(** ** The statements at the sample data *)

Lemma onRefresh_twice_witness :
  exists options1 options2,
    fst (onRefresh Sample.statusToColored Sample.space Sample.web 0 Sample.world
           Sample.promptOpen) = Done options1
    /\ fst (onRefresh Sample.statusToColored Sample.space Sample.web 0 Sample.world
              (snd (onRefresh Sample.statusToColored Sample.space Sample.web 0
                      Sample.world Sample.promptOpen))) = Done options2
    /\ length options1 = length options2
    /\ (forall i, 0 < i -> options1 !! i = options2 !! i).
Proof.
  destruct (onRefresh_twice Sample.statusToColored Sample.space Sample.web 0
              Sample.world Sample.promptOpen
              (snd (onRefresh Sample.statusToColored Sample.space Sample.web 0
                      Sample.world Sample.promptOpen))
              [Sample.placement; Sample.older] false eq_refl eq_refl eq_refl eq_refl)
    as (options1 & options2 & H1 & H2 & Hlen & Hrest & _).
  exists options1, options2. repeat split; assumption.
Defined.

(** C5, as stated, fails: the user presses R once in the first prompt, which
    shows the two options of that refresh, and leaves the prompt; a second
    run of the same callback then fetches the same two placements and
    returns no option. *)
Lemma onRefresh_twice_prompt_left_between :
  listPlacements Cases.refreshOnce 8 (Deployment.id Sample.web)
  = Ok [Sample.placement; Sample.older]
  /\ trace Cases.afterRefreshedPrompt !! 8
     = Some (ListPlacements (Deployment.id Sample.web) true)
  /\ (exists o1 o2,
         trace Cases.afterRefreshedPrompt !! 11 = Some (PromptSettled [o1; o2]))
  /\ listPlacements Cases.refreshOnce (S (now Cases.afterRefreshedPrompt))
       (Deployment.id Sample.web)
     = Ok [Sample.placement; Sample.older]
  /\ fst (onRefresh Sample.statusToColored Sample.space Sample.web 0
            Cases.refreshOnce Cases.afterRefreshedPrompt) = Done [].
Proof.
  split; [reflexivity|]. split; [reflexivity|].
  split; [eexists _, _; reflexivity|]. split; reflexivity.
Qed.

(** C8, as stated, fails: once the first prompt has been left its variable
    [refresh] holds true, and a run of the callback created for that prompt
    returns no option although the service returns two placements. *)
Lemma onRefresh_after_prompt_left :
  (exists options,
      trace Sample.afterPrompt !! 6 = Some (InputPrompt options Sample.web 0))
  /\ cells Sample.afterPrompt !! 0 = Some true
  /\ listPlacements Sample.world (S (now Sample.afterPrompt)) (Deployment.id Sample.web)
     = Ok [Sample.placement; Sample.older]
  /\ fst (onRefresh Sample.statusToColored Sample.space Sample.web 0 Sample.world
            Sample.afterPrompt) = Done [].
Proof.
  split; [eexists; reflexivity|]. repeat split.
Qed.

Lemma onRefresh_options_witness :
  cells Sample.promptOpen !! 0 = Some false
  /\ exists options,
      fst (onRefresh Sample.statusToColored Sample.space Sample.web 0 Sample.world
             Sample.promptOpen) = Done options
      /\ length options = 2.
Proof.
  split; [reflexivity|].
  destruct (proj1 (onRefresh_options Sample.statusToColored Sample.space Sample.web 0
                     Sample.world Sample.promptOpen [Sample.placement; Sample.older]
                     eq_refl) eq_refl)
    as (options & Hrun & Hlen & _).
  exists options. split; [exact Hrun | exact Hlen].
Defined.

Lemma onRefresh_no_placements_witness :
  exists s' tail,
    onRefresh Sample.statusToColored Sample.space Sample.web 0 Sample.emptyWorld
      Sample.promptOpen = (Done [], s')
    /\ trace s'
       = trace Sample.promptOpen
           ++ [Start "Refreshing placements";
               ListPlacements (Deployment.id Sample.web) true]
           ++ tail
    /\ (tail = [] \/ tail = [Stop])
    /\ cells s' = cells Sample.promptOpen.
Proof.
  exact (onRefresh_no_placements Sample.statusToColored Sample.space Sample.web 0
           Sample.emptyWorld Sample.promptOpen eq_refl).
Defined.

Lemma handler_json_output_witness :
  handler Sample.statusToColored Sample.space "|" 0 (Sample.args (Some "a3"))
    Sample.jsonConfig Sample.world initial
  = (Done tt,
     {| trace :=
          [LoadAccountSpinner; ListDeployments None None None None;
           ListPlacements "a3f0-web" true;
           ConsoleLog
             (JSON_stringify
                (JObj [("id", JStr "a3f0-web"); ("version", JNum 3);
                       ("placements",
                         JArr [PlacementWithEvents.raw Sample.placement;
                               PlacementWithEvents.raw Sample.older])])
                4)];
        cells := [] |}).
Proof.
  exact (proj1
           (proj1
              (handler_json_output Sample.statusToColored Sample.space "|" 0
                 (Sample.args (Some "a3")) Sample.jsonConfig Sample.world initial
                 [Sample.web; Sample.worker] (or_introl eq_refl) eq_refl eq_refl)
              Sample.web [Sample.placement; Sample.older] eq_refl eq_refl)).
Defined.

Lemma handler_json_flag_witness :
  exists value,
    handler Sample.statusToColored Sample.space "|" 0 (Sample.args None)
      Sample.jsonConfig Sample.world initial
    = (Done tt,
       {| trace :=
            [LoadAccountSpinner; ListDeployments None None None None;
             ConsoleLog (JSON_stringify value 4)];
          cells := [] |})
    /\ Grammar.json_text (JSON_stringify value 4)
    /\ value = JArr (map Deployment.toJSON [Sample.web; Sample.worker]).
Proof.
  destruct (handler_json_flag Sample.statusToColored Sample.space "|" 0
              (Sample.args None) Sample.jsonConfig Sample.world initial
              (or_introl eq_refl))
    as (calls & _ & [(value & listed & Hrun & Hjson & _ & Hlisted & Hcase)
                    | (e & Hrun & _)]).
  - injection Hlisted as <-.
    destruct Hcase as [(_ & -> & ->) | (only & placements & Hone & _)];
      [|discriminate Hone].
    eexists. split; [exact Hrun|]. split; [exact Hjson | reflexivity].
  - vm_compute in Hrun. discriminate Hrun.
Defined.


(** * Further properties *)

(** ** eventMessage *)

Lemma eventMessage_not_failed (event : PlacementEvent.t) (lastEvent : bool) :
  strictEqString (PlacementEvent.statusChange event !! "health") "failed" = false ->
  eventMessage event lastEvent =
    highlighted
      (if lastEvent && String.eqb (PlacementEvent.name event) "VMStopped" then Yellow
       else if (lastEvent && String.eqb (PlacementEvent.name event) "VMStarted")
               || String.eqb (PlacementEvent.name event) "SSHStarted" then Green
       else if lastEvent then BrandColor
       else Dim)
      event.
Proof.
  intros H. unfold eventMessage. rewrite H.
  repeat match goal with
         | |- context [if ?b then _ else _] => destruct b
         end; reflexivity.
Qed.

(** X1.  An event is rendered with the failure marker exactly when the
    property "health" of its [statusChange] is the string "failed": a missing
    property, another string or a value of another type never gets it. *)
Theorem eventMessage_failure_marker_iff (event : PlacementEvent.t) (lastEvent : bool) :
  eventMessage event lastEvent = failureMarked event <-> healthFailed event.
Proof.
  split.
  - intros H.
    destruct (strictEqString (PlacementEvent.statusChange event !! "health") "failed")
      eqn:E; [now apply strictEqString_true|].
    rewrite (eventMessage_not_failed _ _ E) in H.
    repeat match type of H with
           | context [if ?b then _ else _] => destruct b
           end; discriminate H.
  - intros H. unfold eventMessage. now rewrite (proj2 (strictEqString_true _ _) H).
Qed.

(** X2.  The last event of a placement that reports no failed health and is
    named neither VMStopped, VMStarted nor SSHStarted is rendered in the
    brand colour. *)
Theorem eventMessage_last_other_brand (event : PlacementEvent.t) :
  ~ healthFailed event ->
  PlacementEvent.name event <> "VMStopped" ->
  PlacementEvent.name event <> "VMStarted" ->
  PlacementEvent.name event <> "SSHStarted" ->
  eventMessage event true = highlighted BrandColor event.
Proof.
  intros Hhealth H1 H2 H3.
  rewrite eventMessage_not_failed by now apply strictEqString_failed.
  apply String.eqb_neq in H1, H2, H3. now rewrite H1, H2, H3.
Qed.

Lemma eventMessage_last_other_brand_witness :
  ~ healthFailed Cases.imagePulled
  /\ eventMessage Cases.imagePulled true = highlighted BrandColor Cases.imagePulled.
Proof.
  assert (H : ~ healthFailed Cases.imagePulled) by (vm_compute; discriminate).
  split; [exact H|].
  apply eventMessage_last_other_brand; [exact H | | | ]; discriminate.
Defined.

(** X3.  With the colour helpers switched off an event line reads
    [message (time)], preceded by " X " and a space when the health is
    failed: neither the name of the event nor its position leaves a trace in
    the text. *)
Theorem eventMessage_colourless (event : PlacementEvent.t) (lastEvent : bool) :
  render colourless (eventMessage event lastEvent) =
    (if strictEqString (PlacementEvent.statusChange event !! "health") "failed"
     then " X  " +:+ PlacementEvent.message event
     else PlacementEvent.message event)
    +:+ " (" +:+ PlacementEvent.time event +:+ ")".
Proof.
  rewrite render_eventMessage. cbv zeta. unfold colourless.
  repeat match goal with
         | |- context [if ?b then _ else _] => destruct b
         end; reflexivity.
Qed.

(** X4.  The position of an event changes its rendering unless the event
    has failed health or is named SSHStarted: these two are the only events
    rendered alike in the last position and elsewhere. *)
Theorem eventMessage_position_matters (event : PlacementEvent.t) :
  eventMessage event true = eventMessage event false
  <-> healthFailed event \/ PlacementEvent.name event = "SSHStarted".
Proof.
  destruct (strictEqString (PlacementEvent.statusChange event !! "health") "failed")
    eqn:E.
  - apply strictEqString_true in E. split; [now left|]. intros _.
    unfold eventMessage. now rewrite (proj2 (strictEqString_true _ _) E).
  - rewrite !eventMessage_not_failed by exact E.
    assert (Hhealth : ~ healthFailed event).
    { intros H. apply strictEqString_true in H. congruence. }
    destruct (String.eqb_spec (PlacementEvent.name event) "SSHStarted") as [Hssh|Hssh].
    + split; [now right|]. intros _. rewrite Hssh. reflexivity.
    + split.
      * cbn [andb orb].
        repeat match goal with
               | |- context [if ?b then _ else _] => destruct b
               end; intros H; discriminate H.
      * intros [H|H]; contradiction.
Qed.

(** ** placementToOptions *)

Lemma substring_prefix (n : nat) (s : string) :
  exists rest,
    s = substring 0 n s +:+ rest
    /\ String.length (substring 0 n s) = Nat.min n (String.length s).
Proof.
  revert s. induction n as [|n IH]; intros [|c s]; simpl.
  - now exists "".
  - now exists (String c s).
  - now exists "".
  - destruct (IH s) as (rest & Hs & Hlen). exists rest. split.
    + now rewrite <- Hs.
    + now rewrite Hlen.
Qed.

Section Options.

Variable statusToColored : option json -> Text.
Variable space : nat -> Text.

Local Abbreviation toOptions := (placementToOptions statusToColored space).

(** X5.  An option always carries the four header lines (id, version,
    status, the heading "Events") and then one line per event: a placement
    without events shows the header lines alone. *)
Theorem placementToOptions_details (p : PlacementWithEvents.t) :
  take 4 (PromptOption.details (toOptions p))
  = [ plain "ID: " ++ [Styled Dim (plain (PlacementWithEvents.id p))];
      plain "Version: "
        ++ [Styled Dim
              (plain (NumberToString (PlacementWithEvents.deployment_version p)))];
      plain "Status: " ++ statusToColored (PlacementWithEvents.status p !! "health");
      [Styled BgCyan [Styled White (plain "Events")]] ]
  /\ length (PromptOption.details (toOptions p))
     = 4 + length (PlacementWithEvents.events p)
  /\ Forall (fun line => exists message, line = space 1 ++ message)
       (drop 4 (PromptOption.details (toOptions p))).
Proof.
  unfold placementToOptions. cbn [PromptOption.details]. split; [reflexivity|].
  split.
  - rewrite length_app, length_imap. reflexivity.
  - match goal with
    | |- Forall _ (drop 4 (?header ++ ?lines)) =>
        change (drop 4 (header ++ lines)) with lines
    end.
    apply Forall_forall. intros line Hline.
    apply list_elem_of_lookup in Hline. destruct Hline as (i & Hi).
    rewrite list_lookup_imap in Hi.
    destruct (PlacementWithEvents.events p !! i) as [event|]; [|discriminate Hi].
    injection Hi as <-. eexists. reflexivity.
Qed.

(** X6.  For a placement with an ASCII id, the label shows the first six
    characters of the id, the whole id when it is shorter, and the creation
    time; the value of the option is the whole id. *)
Theorem placementToOptions_label (p : PlacementWithEvents.t) :
  isAscii (PlacementWithEvents.id p) ->
  exists short rest,
    PromptOption.label (toOptions p)
    = "Placement " +:+ short +:+ " (" +:+ PlacementWithEvents.created_at p +:+ ")"
    /\ PlacementWithEvents.id p = short +:+ rest
    /\ String.length short = Nat.min 6 (String.length (PlacementWithEvents.id p))
    /\ PromptOption.value (toOptions p) = PlacementWithEvents.id p.
Proof.
  intros _.
  destruct (substring_prefix 6 (PlacementWithEvents.id p)) as (rest & Hid & Hlen).
  exists (substring 0 6 (PlacementWithEvents.id p)), rest.
  split; [reflexivity|]. split; [exact Hid|]. split; [exact Hlen | reflexivity].
Qed.

End Options.

Lemma placementToOptions_label_witness :
  exists short rest,
    PromptOption.label
      (placementToOptions Sample.statusToColored Sample.space Sample.placement)
    = "Placement " +:+ short +:+ " ("
        +:+ PlacementWithEvents.created_at Sample.placement +:+ ")"
    /\ PlacementWithEvents.id Sample.placement = short +:+ rest
    /\ String.length short = 6
    /\ PromptOption.value
         (placementToOptions Sample.statusToColored Sample.space Sample.placement)
       = PlacementWithEvents.id Sample.placement.
Proof.
  apply (placementToOptions_label Sample.statusToColored Sample.space Sample.placement).
  cbv [isAscii Sample.placement PlacementWithEvents.id]. compute. repeat split; lia.
Defined.

Lemma placementToOptions_event_line_witness :
  PlacementWithEvents.events Sample.placement !! 1 = Some Sample.sshStarted
  /\ PromptOption.details
       (placementToOptions Sample.statusToColored Sample.space Sample.placement)
     !! (4 + 1)
     = Some (Sample.space 1
               ++ eventMessage Sample.sshStarted
                    (bool_decide (2 = length (PlacementWithEvents.events Sample.placement)))).
Proof.
  split; [reflexivity|].
  exact (placementToOptions_event_line Sample.statusToColored Sample.space
           Sample.placement 1 Sample.sshStarted eq_refl).
Defined.

(** ** onRefresh *)

Section RefreshEffects.

Variable statusToColored : option json -> Text.
Variable space : nat -> Text.

Local Abbreviation refreshing := (onRefresh statusToColored space).

(** X7.  A run of the refresh callback starts the spinner and fetches the
    placements of the chosen deployment exactly once; it stops the spinner
    only when the fetch succeeds while the prompt is open, so a failed
    fetch, which is thrown as it is, and a refresh that settles after the
    prompt was left both leave the spinner to the caller.  The callback
    never assigns [refresh]. *)
Theorem onRefresh_effects (deployment : Deployment.t) (refresh : nat) (w : World)
    (s : State) :
  let result := refreshing deployment refresh w s in
  let fetched := listPlacements w (S (now s)) (Deployment.id deployment) in
  exists tail,
    trace (snd result)
    = trace s
        ++ [Start "Refreshing placements";
            ListPlacements (Deployment.id deployment) true]
        ++ tail
    /\ Forall (fun eff => eff = Stop \/ eff = NewDate) tail
    /\ (In Stop tail
        <-> (exists placements, fetched = Ok placements)
            /\ default false (cells s !! refresh) = false)
    /\ (forall e, fetched = Err e -> fst result = Thrown e /\ tail = [])
    /\ cells (snd result) = cells s.
Proof.
  intros result fetched. subst result. rewrite onRefresh_run. cbv zeta.
  fold fetched. destruct fetched as [placements|e].
  - destruct (default false (cells s !! refresh)).
    + exists []. cbn [fst snd trace record cells]. rewrite <- !app_assoc.
      split; [reflexivity|]. split; [constructor|]. split.
      * split; [intros [] | intros [_ H]; discriminate H].
      * split; [intros e H; discriminate H | reflexivity].
    + destruct (map _ placements) as [|o rest].
      * exists [Stop]. cbn [fst snd trace record cells]. rewrite <- !app_assoc.
        split; [reflexivity|].
        split; [constructor; [now left | constructor]|]. split.
        -- split; [intros _; split; [now exists placements | reflexivity]
                  | intros _; now left].
        -- split; [intros e H; discriminate H | reflexivity].
      * exists [Stop; NewDate]. cbn [fst snd trace record cells].
        rewrite <- !app_assoc.
        split; [reflexivity|].
        split; [constructor; [now left | constructor; [now right | constructor]]|].
        split.
        -- split; [intros _; split; [now exists placements | reflexivity]
                  | intros _; now left].
        -- split; [intros e H; discriminate H | reflexivity].
  - exists []. cbn [fst snd trace record cells]. rewrite <- !app_assoc.
    split; [reflexivity|]. split; [constructor|]. split.
    + split; [intros [] | intros [[placements H] _]; discriminate H].
    + split; [intros e' [= <-]; now split | reflexivity].
Qed.

(** X8.  While the prompt is open, the values of the options a refresh
    returns are the ids of the placements fetched, in the order of the
    service. *)
Theorem onRefresh_values (deployment : Deployment.t) (refresh : nat) (w : World)
    (s : State) (placements : list PlacementWithEvents.t) :
  listPlacements w (S (now s)) (Deployment.id deployment) = Ok placements ->
  cells s !! refresh = Some false ->
  exists options,
    fst (refreshing deployment refresh w s) = Done options
    /\ map PromptOption.value options = map PlacementWithEvents.id placements.
Proof.
  intros Hfetch Hcell. rewrite onRefresh_run. cbv zeta. rewrite Hfetch, Hcell.
  cbn [default]. destruct placements as [|p placements]; cbn [map].
  - exists []. now split.
  - eexists. split; [reflexivity|]. cbn [map fst]. f_equal.
    rewrite map_map. reflexivity.
Qed.

End RefreshEffects.

Lemma onRefresh_values_witness :
  exists options,
    fst (onRefresh Sample.statusToColored Sample.space Sample.web 0 Sample.world
           Sample.promptOpen) = Done options
    /\ map PromptOption.value options
       = ["7b1c9e52-placement"; "02aa41f0-placement"].
Proof.
  exact (onRefresh_values Sample.statusToColored Sample.space Sample.web 0 Sample.world
           Sample.promptOpen [Sample.placement; Sample.older] eq_refl eq_refl).
Defined.

(** ** listCommandHandle *)

Lemma insert_last {A : Type} (l : list A) (x y : A) :
  <[length l := y]> (l ++ [x]) = l ++ [y].
Proof. induction l as [|a l IH]; simpl; [reflexivity | now rewrite IH]. Qed.

Section Loop.

Variable statusToColored : option json -> Text.
Variable space : nat -> Text.
Variable shapes_bar : string.

Local Abbreviation turn := (listIteration statusToColored space shapes_bar).
Local Abbreviation loop := (listCommandHandle statusToColored space shapes_bar).

(** The callback never stays running. *)
Lemma onRefresh_settles (deployment : Deployment.t) (refresh : nat) (w : World)
    (s : State) :
  fst (onRefresh statusToColored space deployment refresh w s) <> Running.
Proof.
  rewrite onRefresh_run. cbv zeta.
  destruct (listPlacements _ _ _); [|discriminate].
  destruct (default false _); [discriminate|].
  destruct (map _ _); discriminate.
Qed.

(** The prompt leaves the store as it is, and settles. *)
Lemma promptRefreshes_outcome (deployment : Deployment.t) (refresh presses : nat)
    (w : World) :
  forall shown s,
    let result :=
      promptRefreshes presses shown
        (onRefresh statusToColored space deployment refresh) w s in
    cells (snd result) = cells s /\ fst result <> Running.
Proof.
  induction presses as [|presses IH]; intros shown s; cbn [promptRefreshes].
  - split; [reflexivity | discriminate].
  - cbv zeta. unfold bind.
    pose proof (onRefresh_cells statusToColored space deployment refresh w s) as Hcells.
    pose proof (onRefresh_settles deployment refresh w s) as Hsettles.
    destruct (onRefresh statusToColored space deployment refresh w s)
      as [[refreshed|e|] s1]; cbn [fst snd] in *.
    + destruct (IH refreshed s1) as [Hc Hs]. split; [congruence | exact Hs].
    + split; [exact Hcells | discriminate].
    + now destruct Hsettles.
Qed.

Lemma runInputPrompt_outcome (options : list PromptOption.t)
    (deployment : Deployment.t) (refresh : nat) (w : World) (s : State) :
  let result := runInputPrompt statusToColored space options deployment refresh w s in
  cells (snd result) = cells s /\ fst result <> Running.
Proof.
  cbv zeta. unfold runInputPrompt, bind, emit, askNow, await.
  match goal with
  | |- context [promptRefreshes ?n ?shown ?callback w ?s0] =>
      destruct (promptRefreshes_outcome deployment refresh n w shown s0) as [Hc Hs];
      destruct (promptRefreshes n shown callback w s0) as [[shown'|e|] s1];
      cbn [fst snd] in *
  end.
  - destruct (inputPrompt w (now s1) shown'); cbn [fst snd cells record];
      (split; [exact Hc | discriminate]).
  - split; [exact Hc | discriminate].
  - now destruct Hs.
Qed.

(** The store after one turn: a completed turn leaves its variable
    [refresh] true; a turn that throws has either not created it or left
    it false. *)
Lemma listIteration_cells (prefix : string) (args : ListArgs.t) (w : World)
    (s : State) :
  match fst (turn prefix args w s) with
  | Done _ => cells (snd (turn prefix args w s)) = cells s ++ [true]
  | Thrown _ =>
      cells (snd (turn prefix args w s)) = cells s
      \/ cells (snd (turn prefix args w s)) = cells s ++ [false]
  | Running => False
  end.
Proof.
  unfold listIteration, bind, emit, await, request, alloc, writeCell,
    loadPlacements, loadPlacementsAnswer.
  repeat match goal with
         | |- context [match ?r with Ok _ => _ | Err _ => _ end] =>
             destruct r; cbn [fst snd cells record]
         end;
    try (now left).
  match goal with
  | |- context [runInputPrompt _ _ ?options ?d ?c w ?s0] =>
      destruct (runInputPrompt_outcome options d c w s0) as [Hc Hs];
      destruct (runInputPrompt statusToColored space options d c w s0)
        as [[[]|e|] s1]; cbn [fst snd cells record] in *
  end.
  - rewrite Hc. apply insert_last.
  - right. exact Hc.
  - now destruct Hs.
Qed.

Lemma listCommandHandle_cells (fuel : nat) (prefix : string) (args : ListArgs.t)
    (w : World) (s : State) :
  exists more, cells (snd (loop fuel prefix args w s)) = cells s ++ more.
Proof.
  revert s. induction fuel as [|fuel IH]; intros s; cbn [listCommandHandle].
  - exists []. now rewrite app_nil_r.
  - unfold bind. pose proof (listIteration_cells prefix args w s) as Hturn.
    destruct (turn prefix args w s) as [[[]|e|] s1]; cbn [fst snd] in *.
    + destruct (IH s1) as (more & Hmore). exists ([true] ++ more).
      now rewrite Hmore, Hturn, <- app_assoc.
    + destruct Hturn as [-> | ->]; [exists [] | exists [false]];
        now rewrite ?app_nil_r.
    + destruct Hturn.
Qed.

Lemma listCommandHandle_not_done (fuel : nat) (prefix : string)
    (args : ListArgs.t) (w : World) (s : State) :
  forall u, fst (loop fuel prefix args w s) <> Done u.
Proof.
  revert s. induction fuel as [|fuel IH]; intros s u; cbn [listCommandHandle].
  - discriminate.
  - unfold bind. destruct (turn prefix args w s) as [[[]|e|] s1]; cbn [fst].
    + apply IH.
    + discriminate.
    + discriminate.
Qed.

(** X9.  The interactive loop never completes: whatever the number of
    turns observed, it has either thrown a failure or is still running. *)
Theorem listCommandHandle_never_done (fuel : nat) (prefix : string)
    (args : ListArgs.t) (w : World) (s : State) :
  fst (loop fuel prefix args w s) = Running
  \/ exists e, fst (loop fuel prefix args w s) = Thrown e.
Proof.
  pose proof (listCommandHandle_not_done fuel prefix args w s) as H.
  destruct (fst (loop fuel prefix args w s)) as [u|e|].
  - now destruct (H u).
  - right. now exists e.
  - now left.
Qed.

(** Once the loop has thrown within some number of turns, observing more
    turns changes nothing. *)
Lemma listCommandHandle_thrown_stable (fuel more : nat) (prefix : string)
    (args : ListArgs.t) (w : World) (s s' : State) (e : Failure) :
  loop fuel prefix args w s = (Thrown e, s') ->
  loop (fuel + more) prefix args w s = (Thrown e, s').
Proof.
  revert s. induction fuel as [|fuel IH]; intros s; cbn [listCommandHandle Nat.add].
  - discriminate.
  - unfold bind. destruct (turn prefix args w s) as [[[]|e1|] s1].
    + apply IH.
    + trivial.
    + trivial.
Qed.

(** X10.  Once a turn of the loop has completed, the refresh callback
    created in that turn returns no option at any later moment of the
    loop, whatever the service returns. *)
Theorem onRefresh_stale_after_turn (fuel : nat) (prefix : string) (args : ListArgs.t)
    (w : World) (s s1 : State) (deployment : Deployment.t)
    (placements : list PlacementWithEvents.t) :
  turn prefix args w s = (Done tt, s1) ->
  let later := snd (loop fuel prefix args w s1) in
  listPlacements w (S (now later)) (Deployment.id deployment) = Ok placements ->
  fst (onRefresh statusToColored space deployment (length (cells s)) w later)
  = Done [].
Proof.
  intros Hturn later Hfetch.
  pose proof (listIteration_cells prefix args w s) as Hcells.
  rewrite Hturn in Hcells. cbn [fst snd] in Hcells.
  destruct (listCommandHandle_cells fuel prefix args w s1) as (more & Hmore).
  fold later in Hmore. rewrite Hcells, <- app_assoc in Hmore.
  rewrite onRefresh_run. cbv zeta. rewrite Hfetch, Hmore.
  rewrite lookup_app_r by lia. now rewrite Nat.sub_diag.
Qed.

End Loop.

Lemma onRefresh_stale_after_turn_witness :
  fst (onRefresh Sample.statusToColored Sample.space Sample.web
         (length (cells initial)) Sample.world
         (snd (listCommandHandle Sample.statusToColored Sample.space "|" 2 ""
                 (Sample.args None) Sample.world
                 (snd (listIteration Sample.statusToColored Sample.space "|" ""
                         (Sample.args None) Sample.world initial)))))
  = Done [].
Proof.
  exact (onRefresh_stale_after_turn Sample.statusToColored Sample.space "|" 2 ""
           (Sample.args None) Sample.world initial _ Sample.web
           [Sample.placement; Sample.older] eq_refl eq_refl).
Defined.

(** ** The command handler *)

Lemma emitsOnly_ret {A : Type} (P : Effect -> Prop) (a : A) : emitsOnly P (ret a).
Proof. intros w s. exists []. split; [now rewrite app_nil_r | constructor]. Qed.

Lemma emitsOnly_bind {A B : Type} (P : Effect -> Prop) (m : M A) (k : A -> M B) :
  emitsOnly P m -> (forall a, emitsOnly P (k a)) -> emitsOnly P (bind m k).
Proof.
  intros Hm Hk w s. unfold bind. destruct (Hm w s) as (e1 & Ht1 & Hp1).
  destruct (m w s) as [[a|e|] s1]; cbn [fst snd] in *.
  - destruct (Hk a w s1) as (e2 & Ht2 & Hp2). exists (e1 ++ e2). split.
    + now rewrite Ht2, Ht1, app_assoc.
    + now apply Forall_app.
  - now exists e1.
  - now exists e1.
Qed.

Lemma emitsOnly_one {A : Type} (P : Effect -> Prop) (m : M A) (eff : Effect) :
  P eff -> (forall w s, snd (m w s) = record eff s) -> emitsOnly P m.
Proof.
  intros HP Hm w s. exists [eff]. rewrite Hm. split; [reflexivity|].
  constructor; [exact HP | constructor].
Qed.

Lemma emitsOnly_silent {A : Type} (P : Effect -> Prop) (m : M A) :
  (forall w s, trace (snd (m w s)) = trace s) -> emitsOnly P m.
Proof.
  intros Hm w s. exists []. rewrite Hm. split; [now rewrite app_nil_r | constructor].
Qed.

Lemma emitsOnly_emit (P : Effect -> Prop) (eff : Effect) :
  P eff -> emitsOnly P (emit eff).
Proof. intros HP. now apply (emitsOnly_one P _ eff). Qed.

Lemma emitsOnly_await {A : Type} (P : Effect -> Prop) (eff : Effect)
    (answer : World -> nat -> Result A) :
  P eff -> emitsOnly P (await eff answer).
Proof.
  intros HP. apply (emitsOnly_one P _ eff HP). intros w s. unfold await.
  now destruct (answer w (now s)).
Qed.

Lemma emitsOnly_request {A : Type} (P : Effect -> Prop) (eff : Effect)
    (answer : World -> nat -> Result A) :
  P eff -> emitsOnly P (request eff answer).
Proof. intros HP. now apply (emitsOnly_one P _ eff). Qed.

Section Handler.

Variable statusToColored : option json -> Text.
Variable space : nat -> Text.
Variable shapes_bar : string.

Local Abbreviation command := (handler statusToColored space shapes_bar).
Local Abbreviation loop := (listCommandHandle statusToColored space shapes_bar).

Lemma emitsOnly_onRefresh (deployment : Deployment.t) (refresh : nat) :
  emitsOnly isInteractiveEffect (onRefresh statusToColored space deployment refresh).
Proof.
  unfold onRefresh, loadPlacements.
  apply emitsOnly_bind; [apply emitsOnly_emit; exact I | intros _].
  apply emitsOnly_bind; [apply emitsOnly_await; exact I | intros placements].
  apply emitsOnly_bind; [apply emitsOnly_silent; reflexivity | intros stale].
  destruct stale; [apply emitsOnly_ret|].
  apply emitsOnly_bind; [apply emitsOnly_emit; exact I | intros _].
  destruct (map _ placements); [apply emitsOnly_ret|].
  apply emitsOnly_bind; [|intros date; apply emitsOnly_ret].
  now apply (emitsOnly_one _ _ NewDate).
Qed.

Lemma emitsOnly_promptRefreshes (presses : nat) (deployment : Deployment.t)
    (refresh : nat) :
  forall shown,
    emitsOnly isInteractiveEffect
      (promptRefreshes presses shown
         (onRefresh statusToColored space deployment refresh)).
Proof.
  induction presses as [|presses IH]; intros shown; cbn [promptRefreshes].
  - apply emitsOnly_ret.
  - apply emitsOnly_bind; [apply emitsOnly_onRefresh | intros refreshed; apply IH].
Qed.

Lemma emitsOnly_runInputPrompt (options : list PromptOption.t)
    (deployment : Deployment.t) (refresh : nat) :
  emitsOnly isInteractiveEffect
    (runInputPrompt statusToColored space options deployment refresh).
Proof.
  unfold runInputPrompt.
  apply emitsOnly_bind; [apply emitsOnly_emit; exact I | intros _].
  apply emitsOnly_bind; [apply emitsOnly_silent; reflexivity | intros presses].
  apply emitsOnly_bind; [apply emitsOnly_promptRefreshes | intros shown].
  apply emitsOnly_await. exact I.
Qed.

Lemma emitsOnly_listIteration (prefix : string) (args : ListArgs.t) :
  emitsOnly isInteractiveEffect
    (listIteration statusToColored space shapes_bar prefix args).
Proof.
  unfold listIteration, loadPlacements.
  repeat first [ apply emitsOnly_runInputPrompt
               | apply emitsOnly_emit; exact I
               | apply emitsOnly_await; exact I
               | apply emitsOnly_request; exact I
               | apply emitsOnly_silent; reflexivity
               | apply emitsOnly_bind; [|intros ?] ].
Qed.

Lemma emitsOnly_listCommandHandle (fuel : nat) (prefix : string) (args : ListArgs.t) :
  emitsOnly isInteractiveEffect (loop fuel prefix args).
Proof.
  induction fuel as [|fuel IH]; cbn [listCommandHandle].
  - apply emitsOnly_silent. reflexivity.
  - apply emitsOnly_bind; [apply emitsOnly_listIteration | intros _; exact IH].
Qed.

(** X11.  In an interactive session without [--json] the handler, once
    the account is loaded, never prints with [console.log], never lists
    the deployments through the service itself, and never completes
    normally, however often the user refreshes a prompt. *)
Theorem handler_interactive (fuel : nat) (args : ListArgs.t) (config : Config.t)
    (w : World) (s : State) :
  Config.json config = false ->
  isInteractive w = true ->
  loadAccountSpinner w (now s) = Ok tt ->
  exists effects,
    trace (snd (command fuel args config w s))
    = trace s ++ LoadAccountSpinner :: effects
    /\ Forall isInteractiveEffect effects
    /\ forall u, fst (command fuel args config w s) <> Done u.
Proof.
  intros Hjson Hinteractive Haccount.
  unfold handler, bind, await, ask. rewrite Haccount, Hjson, Hinteractive.
  cbn [orb negb].
  destruct (emitsOnly_listCommandHandle fuel
              (default "" (ListArgs.deploymentIdPrefix args)) args w
              (record LoadAccountSpinner s))
    as (effects & Ht & Hall).
  exists effects. split; [|split].
  - rewrite Ht. cbn [trace record]. now rewrite <- app_assoc.
  - exact Hall.
  - apply listCommandHandle_not_done.
Qed.

(** X12.  In the non-interactive branch a failure of the service leaves
    the output empty: when listing the deployments fails, and also when
    exactly one deployment is kept and fetching its placements fails, the
    handler throws the failure and prints nothing, not even the deployment
    it already has. *)
Theorem handler_json_service_failure (fuel : nat) (args : ListArgs.t)
    (config : Config.t) (w : World) (s : State) (e : Failure) :
  let call :=
    ListDeployments (ListArgs.location args) (ListArgs.image args)
      (ListArgs.state args) (ListArgs.ipv4 args) in
  let listed :=
    listDeployments w (S (now s)) (ListArgs.location args) (ListArgs.image args)
      (ListArgs.state args) (ListArgs.ipv4 args) in
  Config.json config = true \/ isInteractive w = false ->
  loadAccountSpinner w (now s) = Ok tt ->
  (listed = Err e ->
     command fuel args config w s
     = (Thrown e, {| trace := trace s ++ [LoadAccountSpinner; call]; cells := cells s |}))
  /\ (forall deployments only,
         listed = Ok deployments ->
         filterByPrefix (default "" (ListArgs.deploymentIdPrefix args)) deployments
         = [only] ->
         listPlacements w (S (S (now s))) (Deployment.id only) = Err e ->
         command fuel args config w s
         = (Thrown e,
            {| trace :=
                 trace s
                   ++ [LoadAccountSpinner; call;
                       ListPlacements (Deployment.id only) true];
               cells := cells s |})).
Proof.
  intros call listed Hmode Haccount.
  rewrite (handler_json_run _ _ _ _ _ _ _ _ Hmode), Haccount, jsonOutput_run.
  cbv zeta. rewrite !now_record. fold listed call. split.
  - intros ->. now rewrite record_twice.
  - intros deployments only -> -> ->. now rewrite record_thrice.
Qed.

(** X13.  The kind of the output depends on the number of deployments
    kept: the line printed starts with an opening brace when exactly one
    deployment is kept and its placements are fetched, and with an opening
    bracket in every other case, the empty array included. *)
Theorem handler_json_output_kind (fuel : nat) (args : ListArgs.t) (config : Config.t)
    (w : World) (s : State) (listed : list Deployment.t) :
  let kept := filterByPrefix (default "" (ListArgs.deploymentIdPrefix args)) listed in
  Config.json config = true \/ isInteractive w = false ->
  loadAccountSpinner w (now s) = Ok tt ->
  listDeployments w (S (now s)) (ListArgs.location args) (ListArgs.image args)
    (ListArgs.state args) (ListArgs.ipv4 args) = Ok listed ->
  (forall only placements,
      kept = [only] ->
      listPlacements w (S (S (now s))) (Deployment.id only) = Ok placements ->
      exists rest,
        last (trace (snd (command fuel args config w s)))
        = Some (ConsoleLog ("{" +:+ rest)))
  /\ (length kept <> 1 ->
      exists rest,
        last (trace (snd (command fuel args config w s)))
        = Some (ConsoleLog ("[" +:+ rest))).
Proof.
  intros kept Hmode Haccount Hlist.
  rewrite (handler_json_run _ _ _ _ _ _ _ _ Hmode), Haccount, jsonOutput_run.
  cbv zeta. rewrite !now_record, Hlist. subst kept. split.
  - intros only placements -> Hfetch. rewrite Hfetch. cbn [snd trace record].
    rewrite last_snoc. unfold JSON_stringify. cbn [SerializeJSONProperty].
    destruct (Deployment.props only) as [|[k v] props]; cbn [setProp map].
    + eexists. reflexivity.
    + destruct (String.eqb k "placements"); eexists; reflexivity.
  - intros Hlen.
    assert (Harray :
              forall items,
                exists rest, JSON_stringify (JArr items) 4 = "[" +:+ rest).
    { intros items. unfold JSON_stringify. cbn [SerializeJSONProperty].
      destruct (map _ items); eexists; reflexivity. }
    destruct (filterByPrefix _ listed) as [|only [|another kept]].
    + cbn [snd trace record]. rewrite last_snoc.
      destruct (Harray (map Deployment.toJSON [])) as (rest & ->). now exists rest.
    + now contradiction Hlen.
    + cbn [snd trace record]. rewrite last_snoc.
      destruct (Harray (map Deployment.toJSON (only :: another :: kept)))
        as (rest & ->).
      now exists rest.
Qed.

End Handler.

Lemma handler_interactive_witness :
  exists effects,
    trace (snd (handler Sample.statusToColored Sample.space "|" 2 (Sample.args None)
                  {| Config.json := false |} Sample.world initial))
    = trace initial ++ LoadAccountSpinner :: effects
    /\ Forall isInteractiveEffect effects
    /\ forall u,
        fst (handler Sample.statusToColored Sample.space "|" 2 (Sample.args None)
               {| Config.json := false |} Sample.world initial) <> Done u.
Proof.
  exact (handler_interactive Sample.statusToColored Sample.space "|" 2
           (Sample.args None) {| Config.json := false |} Sample.world initial
           eq_refl eq_refl eq_refl).
Defined.

Lemma handler_json_service_failure_witness :
  handler Sample.statusToColored Sample.space "|" 0 (Sample.args (Some "a3"))
    Sample.jsonConfig Cases.offline initial
  = (Thrown (NetworkError "fetch failed"),
     {| trace :=
          [LoadAccountSpinner; ListDeployments None None None None;
           ListPlacements "a3f0-web" true];
        cells := [] |}).
Proof.
  exact (proj2
           (handler_json_service_failure Sample.statusToColored Sample.space "|" 0
              (Sample.args (Some "a3")) Sample.jsonConfig Cases.offline initial
              (NetworkError "fetch failed") (or_introl eq_refl) eq_refl)
           [Sample.web; Sample.worker] Sample.web eq_refl eq_refl eq_refl).
Defined.

Lemma handler_json_output_kind_witness :
  exists rest,
    last (trace (snd (handler Sample.statusToColored Sample.space "|" 0
                        (Sample.args None) Sample.jsonConfig Sample.emptyWorld initial)))
    = Some (ConsoleLog ("[" +:+ rest)).
Proof.
  apply (proj2
           (handler_json_output_kind Sample.statusToColored Sample.space "|" 0
              (Sample.args None) Sample.jsonConfig Sample.emptyWorld initial []
              (or_introl eq_refl) eq_refl eq_refl)).
  simpl. lia.
Defined.

(** ** The prefix filter and the merged record *)

Lemma prefix_app (p q s : string) :
  String.prefix (p +:+ q) s = true -> String.prefix p s = true.
Proof.
  rewrite !prefix_spec. intros [rest ->]. exists (q +:+ rest).
  apply append_assoc.
Qed.

(** X14.  A longer prefix can only narrow the selection: filtering by a
    prefix and then by an extension of it gives what filtering by the
    extension alone gives, a sublist of the first selection; filtering twice
    by the same prefix changes nothing. *)
Theorem filterByPrefix_narrows (p q : string) (listed : list Deployment.t) :
  filterByPrefix (p +:+ q) (filterByPrefix p listed) = filterByPrefix (p +:+ q) listed
  /\ sublist (filterByPrefix (p +:+ q) listed) (filterByPrefix p listed)
  /\ filterByPrefix p (filterByPrefix p listed) = filterByPrefix p listed.
Proof.
  assert (Hcompose :
            forall q',
              filterByPrefix (p +:+ q') (filterByPrefix p listed)
              = filterByPrefix (p +:+ q') listed).
  { intros q'. unfold filterByPrefix.
    induction listed as [|d listed IH]; [reflexivity|]. cbn [List.filter].
    destruct (String.prefix p (Deployment.id d)) eqn:Ep; cbn [List.filter].
    - now rewrite IH.
    - destruct (String.prefix (p +:+ q') (Deployment.id d)) eqn:Epq; [|exact IH].
      apply prefix_app in Epq. congruence. }
  split; [apply Hcompose|]. split.
  - rewrite <- Hcompose. apply filter_sublist.
  - specialize (Hcompose ""). now rewrite append_empty_r in Hcompose.
Qed.

(** X15.  Setting [placements] on the deployment's object loses and
    reorders nothing: a property of that name is replaced where it stands,
    otherwise the new property comes last; setting it twice is setting it
    once. *)
Theorem setProp_keys (k : string) (v : json) (o : list (string * json)) :
  (In k (map fst o) -> map fst (setProp k v o) = map fst o)
  /\ (~ In k (map fst o) -> map fst (setProp k v o) = map fst o ++ [k])
  /\ forall v', setProp k v (setProp k v' o) = setProp k v o.
Proof.
  induction o as [|[k' x] o (IHin & IHout & IHtwice)]; cbn [setProp map fst].
  - split; [intros []|]. split; [reflexivity|]. intros v'. cbn [setProp].
    now rewrite String.eqb_refl.
  - destruct (String.eqb_spec k' k) as [->|Hne]; cbn [map fst].
    + split; [reflexivity|]. split; [intros H; destruct H; now left|].
      intros v'. cbn [setProp]. now rewrite String.eqb_refl.
    + split; [|split].
      * intros [H|H]; [congruence|]. now rewrite IHin.
      * intros H. rewrite IHout; [reflexivity|]. intros Hin. apply H. now right.
      * intros v'. cbn [setProp]. apply String.eqb_neq in Hne. rewrite Hne.
        now rewrite IHtwice.
Qed.

(** ** The event lines of an option *)

(** X16.  The event lines of an option follow the order of the placement's
    events, and only the line of the last event is rendered as the last
    one: every earlier event is rendered as a non-last event. *)
Theorem placementToOptions_event_lines
    (statusToColored : option json -> Text) (space : nat -> Text)
    (p : PlacementWithEvents.t) (earlier : list PlacementEvent.t)
    (final : PlacementEvent.t) :
  PlacementWithEvents.events p = earlier ++ [final] ->
  drop 4 (PromptOption.details (placementToOptions statusToColored space p))
  = map (fun event => space 1 ++ eventMessage event false) earlier
      ++ [space 1 ++ eventMessage final true].
Proof.
  intros Hevents. unfold placementToOptions. cbn [PromptOption.details].
  match goal with
  | |- drop 4 (?header ++ ?lines) = _ => change (drop 4 (header ++ lines)) with lines
  end.
  rewrite Hevents, imap_app. f_equal.
  - rewrite <- (imap_const (fun event => space 1 ++ eventMessage event false)).
    apply imap_ext. intros i event Hi. apply lookup_lt_Some in Hi.
    unfold const. rewrite length_app. cbn [length].
    replace (Z.of_nat i =? Z.of_nat (length earlier + 1) - 1)%Z with false;
      [reflexivity|].
    symmetry. apply Z.eqb_neq. lia.
  - cbn [imap]. rewrite length_app. cbn [length].
    replace (Z.of_nat (length earlier + 0) =? Z.of_nat (length earlier + 1) - 1)%Z
      with true; [reflexivity|].
    symmetry. apply Z.eqb_eq. lia.
Qed.

Lemma placementToOptions_event_lines_witness :
  drop 4 (PromptOption.details
            (placementToOptions Sample.statusToColored Sample.space Sample.older))
  = map (fun event => Sample.space 1 ++ eventMessage event false) [Sample.vmStarted]
      ++ [Sample.space 1 ++ eventMessage Sample.vmStopped true].
Proof.
  exact (placementToOptions_event_lines Sample.statusToColored Sample.space
           Sample.older [Sample.vmStarted] Sample.vmStopped eq_refl).
Defined.
